(** * terminal-cv: the arrow-key selection menu and the Snake simulation

    A shallow embedding of [utils/arrowSelection.ts] (class [ArrowSelection])
    and of the game component [SnakeGame] (its [resetGame], [gameLoop] and
    [handleKeyDown] closures), with the properties of the design document
    stated and settled against them.

    JavaScript numbers that only ever hold small integers are modelled as
    [Z]; arrays as lists; [Math.random()] as a stream of binary64 numbers,
    each given by its rational value, with the roundings of the arithmetic
    done on them written out; a string as the bytes of its UTF-8
    encoding. *)

From Stdlib Require Import Ascii.
From Stdlib Require Import String ZArith QArith Qround List Lia Bool.
From Stdlib Require Import Qabs Lqa.
Import ListNotations.
Open Scope Z_scope.

(** ** Generic helpers *)

(** [arr[i]] for a JavaScript array and an integral number [i]: the element
    when [0 <= i < arr.length], [undefined] (here [None]) otherwise; a
    negative index names a property that an array does not have. *)
Definition js_index {A : Type} (arr : list A) (i : Z) : option A :=
  if i <? 0 then None else nth_error arr (Z.to_nat i).

(** [arr.length] as a number. *)
Definition js_length {A : Type} (arr : list A) : Z := Z.of_nat (length arr).

(** [n]-fold application of a state transformer. *)
Fixpoint iter {St : Type} (n : nat) (f : St -> St) (s : St) : St :=
  match n with
  | O => s
  | S n' => iter n' f (f s)
  end.

(** *** Binary64 arithmetic *)

(** [2^e] as a rational, for any integer [e]. *)
Definition Qpow2 (e : Z) : Q :=
  if 0 <=? e then inject_Z (2 ^ e) else 1 # Z.to_pos (2 ^ (- e)).

(** The integer nearest to [s]; of two nearest ones, the even one. *)
Definition roundHalfEven (s : Q) : Z :=
  let f := Qfloor s in
  match (s - inject_Z f ?= 1 # 2)%Q with
  | Lt => f
  | Gt => f + 1
  | Eq => if Z.even f then f else f + 1
  end.

(** The exponent [e] with [2^(e-1) <= |x| < 2^e], for [x] other than 0. *)
Definition magnitude (x : Q) : Z :=
  let a := Qabs x in
  if Qle_bool 1 a then Z.log2 (Qfloor a) + 1
  else 1 - Z.log2_up (Qceiling (/ a)).

(** The binary64 number that an arithmetic operation with exact result
    [x] returns: [x] rounded to nearest, ties to even, with 53 bits of
    precision and least exponent -1074.  (Overflow to infinity, beyond
    [2^1024], is not modelled.) *)
Definition binary64_round (x : Q) : Q :=
  let c := Z.max (magnitude x - 53) (-1074) in
  (inject_Z (roundHalfEven (x * Qpow2 (- c))) * Qpow2 c)%Q.

(** The finite binary64 numbers. *)
Definition binary64 (u : Q) : Prop :=
  exists m e : Z,
    Z.abs m < 2 ^ 53 /\ -1074 <= e <= 971 /\ (u == inject_Z m * Qpow2 e)%Q.

(** The number of UTF-16 code units of the text whose UTF-8 encoding is
    [s]: a continuation byte counts 0, the first byte of a four-byte
    sequence 2, any other byte 1. *)
Fixpoint utf16_length (s : string) : nat :=
  match s with
  | EmptyString => O
  | String c rest =>
      let b := nat_of_ascii c in
      ((if b <? 128 then 1 else if b <? 192 then 0
        else if b <? 240 then 1 else 2) + utf16_length rest)%nat
  end.

(** [arr.findIndex(p)]: the first position whose element satisfies [p],
    [-1] when there is none. *)
Fixpoint js_findIndex {A : Type} (p : A -> bool) (arr : list A) : Z :=
  match arr with
  | [] => -1
  | a :: rest =>
      if p a then 0
      else let i := js_findIndex p rest in
           if i =? -1 then -1 else i + 1
  end.

(** [arr[n] = a] for a position [n] inside the array. *)
Fixpoint replace_nth {A : Type} (n : nat) (a : A) (arr : list A) : list A :=
  match arr, n with
  | [], _ => []
  | _ :: rest, O => a :: rest
  | b :: rest, S n' => b :: replace_nth n' a rest
  end.

(** [arr.map((x, index) => f x index)], counting from [start]. *)
Fixpoint mapi_from {A B : Type} (f : A -> nat -> B) (start : nat)
    (arr : list A) : list B :=
  match arr with
  | [] => []
  | a :: rest => f a start :: mapi_from f (S start) rest
  end.

(** [arr.join(sep)]. *)
Fixpoint join (sep : string) (arr : list string) : string :=
  match arr with
  | [] => ""
  | [x] => x
  | x :: rest => x ++ sep ++ join sep rest
  end%string.

(** [n] spaces. *)
Fixpoint spaces (n : nat) : string :=
  match n with
  | O => ""
  | S n' => String " "%char (spaces n')
  end%string.

(** The line feed, ["\n"]. *)
Definition newline : string := String "010"%char "".

(** [s.padEnd(n)]: spaces appended up to length [n], the length being
    counted in UTF-16 code units; a string that already has [n] of them
    or more is returned as it is. *)
Definition padEnd (n : nat) (s : string) : string :=
  (s ++ spaces (n - utf16_length s))%string.

(** ** The selection menu: [class ArrowSelection] *)

Module ArrowSelection.

(** A callback is a JavaScript function value; the menu never inspects it,
    so it is an opaque handle. *)
Definition callback := nat.

(** [interface SelectableItem]. *)
Record SelectableItem := mkItem {
  id : string;
  name : string;
  description : option string;
  action : option callback
}.

(** [interface ArrowSelectionConfig]. *)
Record ArrowSelectionConfig := mkConfig {
  cfg_items : list SelectableItem;
  cfg_onSelect : callback;
  cfg_onExit : option callback;
  cfg_title : string;
  cfg_instructions : string
}.

(** The private fields of the class. *)
Record t := mkMenu {
  items : list SelectableItem;
  currentIndex : Z;
  onSelect : callback;
  onExit : option callback;
  title : string;
  instructions : string
}.

(** What a method does to the outside world: the callbacks it invokes, in
    order, with their argument. *)
Inductive call :=
| CallOnSelect (f : callback) (item : SelectableItem)
| CallOnExit (f : callback).

(** [constructor(config)]; [currentIndex] is initialised to [0]. *)
Definition create (config : ArrowSelectionConfig) : t :=
  {| items := cfg_items config;
     currentIndex := 0;
     onSelect := cfg_onSelect config;
     onExit := cfg_onExit config;
     title := cfg_title config;
     instructions := cfg_instructions config |}.

Definition with_index (i : Z) (m : t) : t :=
  {| items := items m; currentIndex := i; onSelect := onSelect m;
     onExit := onExit m; title := title m; instructions := instructions m |}.

Definition with_items (l : list SelectableItem) (m : t) : t :=
  {| items := l; currentIndex := currentIndex m; onSelect := onSelect m;
     onExit := onExit m; title := title m; instructions := instructions m |}.

Definition getCurrentIndex (m : t) : Z := currentIndex m.

(** [return this.items[this.currentIndex]]. *)
Definition getCurrentItem (m : t) : option SelectableItem :=
  js_index (items m) (currentIndex m).

(** [this.currentIndex = this.currentIndex > 0 ? this.currentIndex - 1
                                               : this.items.length - 1]. *)
Definition moveUp (m : t) : t :=
  with_index (if currentIndex m >? 0 then currentIndex m - 1
              else js_length (items m) - 1) m.

(** [this.currentIndex = this.currentIndex < this.items.length - 1
                          ? this.currentIndex + 1 : 0]. *)
Definition moveDown (m : t) : t :=
  with_index (if currentIndex m <? js_length (items m) - 1
              then currentIndex m + 1 else 0) m.

(** [if (this.items[this.currentIndex]) this.onSelect(...)]: the items are
    objects, so the test is true exactly when the element exists. *)
Definition select (m : t) : t * list call :=
  match js_index (items m) (currentIndex m) with
  | Some item => (m, [CallOnSelect (onSelect m) item])
  | None => (m, [])
  end.

(** [if (this.onExit) this.onExit()]. *)
Definition exit (m : t) : t * list call :=
  match onExit m with
  | Some f => (m, [CallOnExit f])
  | None => (m, [])
  end.

Definition getItems (m : t) : list SelectableItem := items m.

(** [this.items.push(item)]. *)
Definition addItem (item : SelectableItem) (m : t) : t :=
  with_items (items m ++ [item]) m.

(** [removeItem(id)]: filter, then pull an index that fell off the end back
    to [Math.max(0, this.items.length - 1)]. *)
Definition removeItem (i : string) (m : t) : t :=
  let m1 := with_items
              (filter (fun item => negb (String.eqb (id item) i)) (items m)) m in
  if currentIndex m1 >=? js_length (items m1)
  then with_index (Z.max 0 (js_length (items m1) - 1)) m1
  else m1.

(** The cursor names an item of the list. *)
Definition in_range (m : t) : Prop :=
  0 <= currentIndex m < js_length (items m).

(** [this.items.find(item => item.id === id)]. *)
Definition getItemById (i : string) (m : t) : option SelectableItem :=
  find (fun item => String.eqb (id item) i) (items m).

(** [Partial<SelectableItem>]: for each property, [None] when the object
    does not have it.  [description] and [action] may be present with the
    value [undefined]. *)
Record ItemUpdates := mkUpdates {
  upd_id : option string;
  upd_name : option string;
  upd_description : option (option string);
  upd_action : option (option callback)
}.

(** [{ ...item, ...updates }]: a property of [updates] wins. *)
Definition spread (item : SelectableItem) (updates : ItemUpdates)
  : SelectableItem :=
  {| id := match upd_id updates with Some v => v | None => id item end;
     name := match upd_name updates with Some v => v | None => name item end;
     description := match upd_description updates with
                    | Some v => v
                    | None => description item
                    end;
     action := match upd_action updates with
               | Some v => v
               | None => action item
               end |}.

(** [updateItem(id, updates)]. *)
Definition updateItem (i : string) (updates : ItemUpdates) (m : t) : t :=
  let index := js_findIndex (fun item => String.eqb (id item) i) (items m) in
  if negb (index =? -1) then
    match js_index (items m) index with
    | Some item =>
        with_items (replace_nth (Z.to_nat index) (spread item updates)
                                (items m)) m
    | None => m
    end
  else m.

(** One line of the menu: [`  ${prefix} ${name} - ${description}`]. *)
Definition itemLine (item : SelectableItem) (isSelected : bool) : string :=
  let prefix := (if isSelected then ">" else " ")%string in
  let name := padEnd 21 (name item) in
  let description := match description item with
                     | Some d => d
                     | None => ""%string
                     end in
  ("  " ++ prefix ++ " " ++ name ++ " - " ++ description)%string.

(** The lines that [getDisplayText] joins. *)
Definition itemLines (m : t) : list string :=
  mapi_from (fun item index =>
               itemLine item (Z.of_nat index =? currentIndex m))
            0 (items m).

Definition navigationHelp : string :=
  (newline ++ newline
   ++ "🎯 Navigation:" ++ newline
   ++ "  ↑/↓ Arrow Keys        - Navigate between options" ++ newline
   ++ "  Enter                 - Select option" ++ newline
   ++ "  Ctrl+C                - Exit menu" ++ newline ++ newline
   ++ "Ready to select? Use arrow keys to navigate!")%string.

(** [getDisplayText()]. *)
Definition getDisplayText (m : t) : string :=
  (title m ++ newline
   ++ "=====================================" ++ newline ++ newline
   ++ instructions m ++ newline ++ newline
   ++ join newline (itemLines m) ++ navigationHelp)%string.

(** A line of the menu carries the marker when its third character is
    [>]. *)
Definition isMarked (line : string) : bool :=
  match String.get 2 line with
  | Some c => Ascii.eqb c ">"%char
  | None => false
  end.

(** [in_range] as a test. *)
Definition in_rangeb (m : t) : bool :=
  (0 <=? currentIndex m) && (currentIndex m <? js_length (items m)).

(** The data model's invariant: the cursor names an item, or the list is
    empty and the cursor is where the constructor put it. *)
Definition cursor_ok (m : t) : Prop :=
  in_range m \/ (items m = [] /\ currentIndex m = 0).

(** A menu to run the methods on: three entries, as the games list is
    built, with both callbacks given. *)
Definition snakeItem : SelectableItem :=
  mkItem "snake" "Snake" (Some "Classic Snake Game"%string) None.

Definition tetrisItem : SelectableItem :=
  mkItem "tetris" "Tetris" None None.

Definition pongItem : SelectableItem :=
  mkItem "pong" "Pong" (Some "Two paddles"%string) None.

Definition gamesMenu : t :=
  create (mkConfig [snakeItem; tetrisItem; pongItem] 0%nat (Some 1%nat)
                   "Games" "Use the arrow keys").

(** The same menu over an empty list. *)
Definition emptyMenu : t :=
  create (mkConfig [] 0%nat None "Games" "Use the arrow keys").

End ArrowSelection.

(** ** The Snake simulation: [SnakeGame] *)

Module Snake.

(** [const grid = 16]; the canvas element is declared 400 by 400, that is
    25 by 25 grid cells. *)
Definition grid : Z := 16.
Definition canvas_width : Z := 400.
Definition canvas_height : Z := 400.

(** An element of [snake.cells]: [{ x, y }]. *)
Record cell := mkCell { cell_x : Z; cell_y : Z }.

Definition cell_eqb (a b : cell) : bool :=
  (cell_x a =? cell_x b) && (cell_y a =? cell_y b).

(** The variables the closures share: [count], the [snake] and [apple]
    objects, the React state [score], and how many times [Math.random()]
    has been called so far. *)
Record state := mkState {
  count : Z;
  snake_x : Z;
  snake_y : Z;
  snake_dx : Z;
  snake_dy : Z;
  snake_cells : list cell;
  snake_maxCells : Z;
  apple_x : Z;
  apple_y : Z;
  score : Z;
  draws : nat
}.

Definition set_count (v : Z) (s : state) : state :=
  mkState v (snake_x s) (snake_y s) (snake_dx s) (snake_dy s) (snake_cells s)
          (snake_maxCells s) (apple_x s) (apple_y s) (score s) (draws s).
Definition set_x (v : Z) (s : state) : state :=
  mkState (count s) v (snake_y s) (snake_dx s) (snake_dy s) (snake_cells s)
          (snake_maxCells s) (apple_x s) (apple_y s) (score s) (draws s).
Definition set_y (v : Z) (s : state) : state :=
  mkState (count s) (snake_x s) v (snake_dx s) (snake_dy s) (snake_cells s)
          (snake_maxCells s) (apple_x s) (apple_y s) (score s) (draws s).
Definition set_dx (v : Z) (s : state) : state :=
  mkState (count s) (snake_x s) (snake_y s) v (snake_dy s) (snake_cells s)
          (snake_maxCells s) (apple_x s) (apple_y s) (score s) (draws s).
Definition set_dy (v : Z) (s : state) : state :=
  mkState (count s) (snake_x s) (snake_y s) (snake_dx s) v (snake_cells s)
          (snake_maxCells s) (apple_x s) (apple_y s) (score s) (draws s).
Definition set_cells (v : list cell) (s : state) : state :=
  mkState (count s) (snake_x s) (snake_y s) (snake_dx s) (snake_dy s) v
          (snake_maxCells s) (apple_x s) (apple_y s) (score s) (draws s).
Definition set_maxCells (v : Z) (s : state) : state :=
  mkState (count s) (snake_x s) (snake_y s) (snake_dx s) (snake_dy s)
          (snake_cells s) v (apple_x s) (apple_y s) (score s) (draws s).
Definition set_apple_x (v : Z) (s : state) : state :=
  mkState (count s) (snake_x s) (snake_y s) (snake_dx s) (snake_dy s)
          (snake_cells s) (snake_maxCells s) v (apple_y s) (score s) (draws s).
Definition set_apple_y (v : Z) (s : state) : state :=
  mkState (count s) (snake_x s) (snake_y s) (snake_dx s) (snake_dy s)
          (snake_cells s) (snake_maxCells s) (apple_x s) v (score s) (draws s).
Definition set_score (v : Z) (s : state) : state :=
  mkState (count s) (snake_x s) (snake_y s) (snake_dx s) (snake_dy s)
          (snake_cells s) (snake_maxCells s) (apple_x s) (apple_y s) v (draws s).
Definition set_draws (v : nat) (s : state) : state :=
  mkState (count s) (snake_x s) (snake_y s) (snake_dx s) (snake_dy s)
          (snake_cells s) (snake_maxCells s) (apple_x s) (apple_y s) (score s) v.

(** The state when the effect has run: the object literals of lines 22-37
    and [useState(0)]. *)
Definition initial : state :=
  {| count := 0;
     snake_x := 160; snake_y := 160; snake_dx := grid; snake_dy := 0;
     snake_cells := []; snake_maxCells := 4;
     apple_x := 320; apple_y := 320;
     score := 0;
     draws := 0 |}.

(** The fields of a [KeyboardEvent] that the handler reads. *)
Record KeyboardEvent := mkKey { which : Z; key : string; ctrlKey : bool }.

(** [cell.x === apple.x && cell.y === apple.y]. *)
Definition onApple (c : cell) (s : state) : bool :=
  (cell_x c =? apple_x s) && (cell_y c =? apple_y s).

(** What the handler does besides updating the shared variables. *)
Inductive effect := PreventDefault | CallOnExit.

(** What the host delivers: an animation frame or a key press. *)
Inductive input := Frame | KeyDown (e : KeyboardEvent).

Section WithRandom.

(** [random n] is the value of the [n]-th call of [Math.random()]. *)
Variable random : nat -> Q.

(** [Math.floor(Math.random() * (max - min)) + min] at the [n]-th call of
    [Math.random()]: the difference, the product and the sum are binary64
    operations, each rounded; [Math.floor] of a binary64 number is exact.
    [min] and [max] are integers that are binary64 numbers themselves. *)
Definition randomInt (min max : Z) (n : nat) : Z :=
  Qfloor
    (binary64_round
       (inject_Z
          (Qfloor
             (binary64_round
                (random n * binary64_round (inject_Z max - inject_Z min))))
        + inject_Z min)).

(** [getRandomInt(min, max)]. *)
Definition getRandomInt (min max : Z) (s : state) : Z * state :=
  (randomInt min max (draws s), set_draws (S (draws s)) s).

(** The cell index that [getRandomInt(0, 25)] returns at the [n]-th call
    of [Math.random()]. *)
Definition drawIndex (n : nat) : Z := randomInt 0 25 n.

(** [resetGame], statement by statement. *)
Definition resetGame (s : state) : state :=
  let s := set_x 160 s in
  let s := set_y 160 s in
  let s := set_cells [] s in
  let s := set_maxCells 4 s in
  let s := set_dx grid s in
  let s := set_dy 0 s in
  let s := set_score 0 s in
  let '(i, s) := getRandomInt 0 25 s in
  let s := set_apple_x (i * grid) s in
  let '(j, s) := getRandomInt 0 25 s in
  set_apple_y (j * grid) s.

(** Lines 71-75 and 78-82: the wrap of one coordinate. *)
Definition wrap (extent v : Z) : Z :=
  if v <? 0 then extent - grid
  else if v >=? extent then 0
  else v.

(** Lines 66-90: move by the velocity, wrap, [unshift] the new head,
    [pop] the tail when the array is longer than [maxCells]. *)
Definition moveSnake (s : state) : state :=
  let s := set_x (snake_x s + snake_dx s) s in
  let s := set_y (snake_y s + snake_dy s) s in
  let s := set_x (wrap canvas_width (snake_x s)) s in
  let s := set_y (wrap canvas_height (snake_y s)) s in
  let s := set_cells (mkCell (snake_x s) (snake_y s) :: snake_cells s) s in
  if js_length (snake_cells s) >? snake_maxCells s
  then set_cells (removelast (snake_cells s)) s
  else s.

(** Lines 107-114: the body of [if (cell.x === apple.x && ...)]. *)
Definition eatApple (s : state) : state :=
  let s := set_maxCells (snake_maxCells s + 1) s in
  let s := set_score (score s + 10) s in
  let '(i, s) := getRandomInt 0 25 s in
  let s := set_apple_x (i * grid) s in
  let '(j, s) := getRandomInt 0 25 s in
  set_apple_y (j * grid) s.

(** Lines 117-122: [for (let i = ...; i < snake.cells.length; i++)].  The
    loop reads [snake.cells] afresh at every test, so it sees the empty
    array that [resetGame] installs.  [fuel] bounds the iterations. *)
Fixpoint collisionLoop (fuel : nat) (i : nat) (c : cell) (s : state) : state :=
  match fuel with
  | O => s
  | S fuel' =>
      match nth_error (snake_cells s) i with
      | None => s
      | Some ci =>
          collisionLoop fuel' (S i) c
            (if cell_eqb c ci then resetGame s else s)
      end
  end.

(** Lines 102-123: the callback given to [forEach]. *)
Definition visitCell (c : cell) (index : nat) (s : state) : state :=
  let s := if onApple c s then eatApple s else s in
  collisionLoop (length (snake_cells s)) (S index) c s.

(** [arr.forEach(callback)] from position [index] on.  [arr] is the array
    object on which [forEach] was called: assigning a new array to
    [snake.cells] does not change what is iterated. *)
Fixpoint forEachCell (arr : list cell) (index : nat) (s : state) : state :=
  match arr with
  | [] => s
  | c :: rest => forEachCell rest (S index) (visitCell c index s)
  end.

(** One simulation step: the body of [gameLoop] below the frame gate. *)
Definition gameTick (s : state) : state :=
  let s := moveSnake s in
  forEachCell (snake_cells s) 0 s.

(** [gameLoop]: [if (++count < 6) return; count = 0; ...]. *)
Definition gameLoop (s : state) : state :=
  let s := set_count (count s + 1) s in
  if count s <? 6 then s
  else gameTick (set_count 0 s).

Definition isRestartKey (e : KeyboardEvent) : bool :=
  String.eqb (key e) "r" || String.eqb (key e) "R".

Definition isQuitKey (e : KeyboardEvent) : bool :=
  String.eqb (key e) "q" || String.eqb (key e) "Q"
  || (ctrlKey e && String.eqb (key e) "c").

(** [handleKeyDown], branch by branch. *)
Definition handleKeyDown (e : KeyboardEvent) (s : state) : state * list effect :=
  if (which e =? 37) && (snake_dx s =? 0) then
    (set_dy 0 (set_dx (- grid) s), [])
  else if (which e =? 38) && (snake_dy s =? 0) then
    (set_dx 0 (set_dy (- grid) s), [])
  else if (which e =? 39) && (snake_dx s =? 0) then
    (set_dy 0 (set_dx grid s), [])
  else if (which e =? 40) && (snake_dy s =? 0) then
    (set_dx 0 (set_dy grid s), [])
  else if isRestartKey e then
    (resetGame s, [PreventDefault])
  else if isQuitKey e then
    (s, [PreventDefault; CallOnExit])
  else (s, []).

Definition step (i : input) (s : state) : state :=
  match i with
  | Frame => gameLoop s
  | KeyDown e => fst (handleKeyDown e s)
  end.

(** The inputs are delivered in list order. *)
Fixpoint run (inputs : list input) (s : state) : state :=
  match inputs with
  | [] => s
  | i :: rest => run rest (step i s)
  end.

(** The states the component can be in. *)
Inductive reachable : state -> Prop :=
| reach_initial : reachable initial
| reach_step i s : reachable s -> reachable (step i s).

End WithRandom.

(** *** Vocabulary of the design document *)

Inductive direction := Up | Down | Left | Right.

Definition velocity (d : direction) : Z * Z :=
  match d with
  | Left => (- grid, 0)
  | Up => (0, - grid)
  | Right => (grid, 0)
  | Down => (0, grid)
  end.

(** The [which] code of the arrow key that asks for a direction. *)
Definition arrowCode (d : direction) : Z :=
  match d with Left => 37 | Up => 38 | Right => 39 | Down => 40 end.

Definition horizontal (d : direction) : bool :=
  match d with Left | Right => true | Up | Down => false end.

Definition perpendicular (d d' : direction) : bool :=
  negb (Bool.eqb (horizontal d) (horizontal d')).

Definition moving (d : direction) (s : state) : Prop :=
  (snake_dx s, snake_dy s) = velocity d.

Definition set_direction (d : direction) (s : state) : state :=
  set_dy (snd (velocity d)) (set_dx (fst (velocity d)) s).

(** Exactly one component of the velocity is non-zero, and it is [grid]
    in absolute value. *)
Definition axis_aligned (s : state) : Prop :=
  (snake_dx s <> 0 /\ snake_dy s = 0 /\ Z.abs (snake_dx s) = grid) \/
  (snake_dx s = 0 /\ snake_dy s <> 0 /\ Z.abs (snake_dy s) = grid).

(** A coordinate pair that names a cell of the 25 by 25 board. *)
Definition in_board (x y : Z) : Prop :=
  exists i j, 0 <= i < 25 /\ 0 <= j < 25 /\ x = i * grid /\ y = j * grid.

(** The apple lies on a cell of the board. *)
Definition appleInBoard (s : state) : Prop := in_board (apple_x s) (apple_y s).

(** Some cell of the array lies on the apple. *)
Definition appleHit (s : state) : bool :=
  existsb (fun c => onApple c s) (snake_cells s).

(** Some cell of the array equals a later one. *)
Fixpoint selfCollides (l : list cell) : bool :=
  match l with
  | [] => false
  | c :: rest => existsb (cell_eqb c) rest || selfCollides rest
  end.

(** A tick in which, after the move, no cell lies on the apple and no two
    cells coincide. *)
Definition quietTick (s : state) : bool :=
  let s := moveSnake s in
  negb (appleHit s) && negb (selfCollides (snake_cells s)).

(** [k] consecutive ticks, all of them quiet. *)
Fixpoint quietRun (random : nat -> Q) (k : nat) (s : state) : bool :=
  match k with
  | O => true
  | S k' => quietTick s && quietRun random k' (gameTick random s)
  end.

(** The snake as [initial] and [resetGame] leave it: at (160, 160), no
    cell recorded yet, target length 4. *)
Definition freshSnake (s : state) : Prop :=
  snake_x s = 160 /\ snake_y s = 160
  /\ snake_cells s = [] /\ snake_maxCells s = 4.

(** A random source that always returns 0. *)
Definition zeroDraws : nat -> Q := fun _ => 0%Q.

(** What [k] quiet ticks make of a fresh snake moving in direction [d]. *)
Definition afterQuiet (d : direction) (k : nat) (s : state) : Prop :=
  moving d s
  /\ snake_maxCells s = 4
  /\ snake_x s = (160 + Z.of_nat k * fst (velocity d)) mod canvas_width
  /\ snake_y s = (160 + Z.of_nat k * snd (velocity d)) mod canvas_height
  /\ js_length (snake_cells s) = Z.min (Z.of_nat k) 4
  /\ match k with
     | O => snake_cells s = []
     | S _ => hd_error (snake_cells s) = Some (mkCell (snake_x s) (snake_y s))
     end.

(** Some cell of the list lies at [(x, y)]. *)
Definition occupied (x y : Z) (l : list cell) : bool :=
  existsb (fun c => (cell_x c =? x) && (cell_y c =? y)) l.

(** The snake after a reset, possibly followed by apples eaten from the
    array that was being iterated: [m] of them. *)
Definition resetShape (m : Z) (s : state) : Prop :=
  snake_cells s = []
  /\ snake_x s = 160 /\ snake_y s = 160
  /\ snake_dx s = grid /\ snake_dy s = 0
  /\ 0 <= m /\ score s = 10 * m /\ snake_maxCells s = 4 + m.

(** *** Invariants of the running game *)

Definition cellOnBoard (c : cell) : Prop := in_board (cell_x c) (cell_y c).

(** What every reachable state satisfies, whatever [Math.random()]
    returns: the frame counter is below 6, the velocity is axis-aligned,
    position and cells are on the board, the score is ten times the growth
    of the target length, the array is no longer than the target length,
    and its head, when there is one, is the current position. *)
Definition gameInvariant (s : state) : Prop :=
  0 <= count s < 6
  /\ axis_aligned s
  /\ in_board (snake_x s) (snake_y s)
  /\ Forall cellOnBoard (snake_cells s)
  /\ 4 <= snake_maxCells s
  /\ score s = 10 * (snake_maxCells s - 4)
  /\ js_length (snake_cells s) <= snake_maxCells s
  /\ (snake_cells s = []
      \/ hd_error (snake_cells s) = Some (mkCell (snake_x s) (snake_y s))).

Definition opposite (d : direction) : direction :=
  match d with Left => Right | Right => Left | Up => Down | Down => Up end.

(** *** Concrete runs *)

(** The event a browser delivers for an arrow key. *)
Definition arrowName (d : direction) : string :=
  match d with
  | Left => "ArrowLeft" | Up => "ArrowUp"
  | Right => "ArrowRight" | Down => "ArrowDown"
  end.

Definition arrowKey (d : direction) : KeyboardEvent :=
  mkKey (arrowCode d) (arrowName d) false.

Definition restartKey : KeyboardEvent := mkKey 82 "r" false.

(** Two ticks to the right, then Up and Left pressed before the next tick,
    then the five frames that precede it: the next tick moves the head
    back onto the cell it came from. *)
Definition reversalInputs : list input :=
  repeat Frame 12 ++ [KeyDown (arrowKey Up); KeyDown (arrowKey Left)]
  ++ repeat Frame 5.

(** Draws [1/2] and [13/32]: indices 12 and 10, the cell (192, 160). *)
Definition reversalDraws : nat -> Q :=
  fun n => match n with
           | 0%nat => 1 # 2
           | 1%nat => 13 # 32
           | _ => 0
           end%Q.

(** Down for ten ticks, then right for nine, then the five frames that
    precede the tick in which the head reaches the apple at (320, 320). *)
Definition appleInputs : list input :=
  [KeyDown (arrowKey Down)] ++ repeat Frame 60
  ++ [KeyDown (arrowKey Right)] ++ repeat Frame 59.

(** Draws [25/32] and [13/16]: indices 19 and 20, the cell (304, 320). *)
Definition appleDraws : nat -> Q :=
  fun n => match n with
           | 0%nat => 25 # 32
           | 1%nat => 13 # 16
           | _ => 0
           end%Q.

(** Draws 0.6799999999999999 and [13/16]: the rounded product of the
    first with 25 is 17, so the indices are 17 and 20, the cell
    (272, 320). *)
Definition roundedDraws : nat -> Q :=
  fun n => match n with
           | 0%nat => 3062447746611937 # 4503599627370496
           | 1%nat => 13 # 16
           | _ => 0
           end%Q.

(** Every value of [Math.random()] is a binary64 number in [[0, 1)]. *)
Definition unit_interval (random : nat -> Q) : Prop :=
  forall n, binary64 (random n) /\ (0 <= random n)%Q /\ (random n < 1)%Q.

End Snake.

(** ** The console's helpers: [helpers/consoleHelpers.ts] *)

Module ConsoleHelpers.

(** [type: 'input' | 'output']. *)
Inductive HistoryType := input | output.

(** [HistoryItem]. *)
Record HistoryItem := mkHistoryItem { type : HistoryType; content : string }.

Definition isOutput (t : HistoryType) : bool :=
  match t with output => true | input => false end.

(** The updater that [addToHistory] gives to [setHistory]:
    [prev => [...prev, { type, content }]]. *)
Definition addToHistory (t : HistoryType) (c : string)
    (prev : list HistoryItem) : list HistoryItem :=
  prev ++ [mkHistoryItem t c].

(** The state that the arrow keys of the command line work on: the
    commands entered so far, the React state [historyIndex], and the text
    of the input field ([None] stands for [undefined]). *)
Record navigation := mkNavigation {
  commandHistory : list string;
  historyIndex : Z;
  inputText : option string
}.

(** [handleArrowUp], with [setHistoryIndex] and [setInput] applied. *)
Definition handleArrowUp (n : navigation) : navigation :=
  if js_length (commandHistory n) =? 0 then n
  else
    let newIndex :=
      if historyIndex n =? -1 then js_length (commandHistory n) - 1
      else if historyIndex n >? 0 then historyIndex n - 1
      else historyIndex n in
    {| commandHistory := commandHistory n;
       historyIndex := newIndex;
       inputText := js_index (commandHistory n) newIndex |}.

(** [handleArrowDown]: in the [else] branch only [setInput('')] runs; the
    [return] comes before [setHistoryIndex]. *)
Definition handleArrowDown (n : navigation) : navigation :=
  if js_length (commandHistory n) =? 0 then n
  else if historyIndex n <? js_length (commandHistory n) - 1 then
    {| commandHistory := commandHistory n;
       historyIndex := historyIndex n + 1;
       inputText := js_index (commandHistory n) (historyIndex n + 1) |}
  else
    {| commandHistory := commandHistory n;
       historyIndex := historyIndex n;
       inputText := Some ""%string |}.

(** What entering a command does to the navigation state.  [returned]
    says whether [executeCommand] returned: when it throws - as it does
    for [clear], whose handler the console does not pass - none of the
    setters that follow the call is reached and the state stays as it is.
    When it returns: [setCommandHistory(prev => [...prev, command])],
    [setHistoryIndex(-1)], [setInput('')]. *)
Definition commandEntered (returned : bool) (command : string)
    (n : navigation) : navigation :=
  if returned then
    {| commandHistory := commandHistory n ++ [command];
       historyIndex := -1;
       inputText := Some ""%string |}
  else n.

(** The index is [-1] (nothing recalled) or names a command. *)
Definition index_ok (n : navigation) : Prop :=
  -1 <= historyIndex n < js_length (commandHistory n).

(** Three commands entered, none recalled. *)
Definition threeCommands : navigation :=
  mkNavigation ["help"; "about"; "games"]%string (-1) (Some ""%string).

End ConsoleHelpers.

(** ** Key dispatch: [helpers/keyboardHandlers.ts] *)

Module KeyboardHandlers.

(** The fields of the event that the handlers read. *)
Record KeyEvent := mkKeyEvent { key : string; ctrlKey : bool; shiftKey : bool }.

(** What a handler calls, in order: methods of the event and the
    callbacks it was given. *)
Inductive call :=
| PreventDefault | StopPropagation
| OnTabCompletion | OnArrowUp | OnArrowDown | OnEnter | OnCtrlC
| OnGamesUp | OnGamesDown | OnGamesSelect | OnGamesExit.

Definition isCallback (c : call) : bool :=
  match c with PreventDefault | StopPropagation => false | _ => true end.

(** [isBrowserConsoleShortcut]. *)
Definition isBrowserConsoleShortcut (e : KeyEvent) : bool :=
  String.eqb (key e) "F12"
  || (ctrlKey e && shiftKey e && String.eqb (key e) "I")
  || (ctrlKey e && shiftKey e && String.eqb (key e) "J")
  || (ctrlKey e && String.eqb (key e) "U").

(** [handleKeyDown], the handler of the input field. *)
Definition handleKeyDown (e : KeyEvent) (isGamesMode : bool) : list call :=
  if isBrowserConsoleShortcut e then [PreventDefault; StopPropagation]
  else if ctrlKey e && String.eqb (key e) "c" && isGamesMode then
    [PreventDefault; StopPropagation; OnCtrlC]
  else if String.eqb (key e) "Tab" && negb isGamesMode then
    [PreventDefault; StopPropagation; OnTabCompletion]
  else if String.eqb (key e) "ArrowUp" then
    [PreventDefault; StopPropagation; OnArrowUp]
  else if String.eqb (key e) "ArrowDown" then
    [PreventDefault; StopPropagation; OnArrowDown]
  else if String.eqb (key e) "Enter" && isGamesMode then
    [PreventDefault; StopPropagation; OnEnter]
  else [].

(** The shortcuts that [handleGlobalKeyDown] swallows. *)
Definition isGloballyBlocked (e : KeyEvent) : bool :=
  String.eqb (key e) "F12"
  || (ctrlKey e && shiftKey e && String.eqb (key e) "I")
  || (ctrlKey e && shiftKey e && String.eqb (key e) "J")
  || (ctrlKey e && String.eqb (key e) "U")
  || (ctrlKey e && shiftKey e && String.eqb (key e) "K").

Definition isArrowKey (e : KeyEvent) : bool :=
  String.eqb (key e) "ArrowUp" || String.eqb (key e) "ArrowDown"
  || String.eqb (key e) "ArrowLeft" || String.eqb (key e) "ArrowRight".

(** [handleGlobalKeyDown], the handler on the document: its calls and its
    return value ([Some false] for [return false], [None] for none). *)
Definition handleGlobalKeyDown (e : KeyEvent) (isGamesMode isPlayingGame : bool)
  : list call * option bool :=
  if isGloballyBlocked e then ([PreventDefault; StopPropagation], Some false)
  else
    let scroll :=
      if (isGamesMode || isPlayingGame) && isArrowKey e
      then [PreventDefault; StopPropagation] else [] in
    let games :=
      if isGamesMode then
        if String.eqb (key e) "ArrowUp" then [PreventDefault; OnGamesUp]
        else if String.eqb (key e) "ArrowDown" then [PreventDefault; OnGamesDown]
        else if String.eqb (key e) "Enter" then [PreventDefault; OnGamesSelect]
        else if ctrlKey e && String.eqb (key e) "c" then
          [PreventDefault; OnGamesExit]
        else []
      else [] in
    (scroll ++ games, None).

End KeyboardHandlers.

(** ** The games menu in the console: [helpers/gameHelpers.ts] and the
    wiring of [components/Console.tsx] *)

Module GameHelpers.

Import ConsoleHelpers.

(** The updater that [updateGamesDisplay] gives to [setHistory]: copy the
    history and, when its last entry is an output, replace that entry. *)
Definition replaceLastOutput (gamesText : string) (prev : list HistoryItem)
  : list HistoryItem :=
  let newHistory := prev in
  if js_length newHistory >? 0 then
    match js_index newHistory (js_length newHistory - 1) with
    | Some lastItem =>
        if isOutput (type lastItem)
        then replace_nth (Z.to_nat (js_length newHistory - 1))
                         (mkHistoryItem output gamesText) newHistory
        else newHistory
    | None => newHistory
    end
  else newHistory.

(** The state of [Console] that the games menu works on. *)
Record host := mkHost {
  gamesSelection : ArrowSelection.t;
  history : list HistoryItem;
  isGamesMode : bool;
  selectedGame : string;
  isPlayingGame : bool
}.

Definition set_selection (m : ArrowSelection.t) (h : host) : host :=
  mkHost m (history h) (isGamesMode h) (selectedGame h) (isPlayingGame h).

Definition set_history (l : list HistoryItem) (h : host) : host :=
  mkHost (gamesSelection h) l (isGamesMode h) (selectedGame h)
         (isPlayingGame h).

(** [updateGamesDisplay]. *)
Definition updateGamesDisplay (h : host) : host :=
  set_history
    (replaceLastOutput (ArrowSelection.getDisplayText (gamesSelection h))
                       (history h)) h.

(** [handleGamesUp] and [handleGamesDown]: move, then refresh. *)
Definition handleGamesUp (h : host) : host :=
  updateGamesDisplay (set_selection (ArrowSelection.moveUp (gamesSelection h)) h).

Definition handleGamesDown (h : host) : host :=
  updateGamesDisplay
    (set_selection (ArrowSelection.moveDown (gamesSelection h)) h).

(** A game of [data/portfolioData]. *)
Record game := mkGame { game_id : string; game_name : string;
                        game_description : string }.

(** [createGameItems]: one item per game, in order; the [action] of the
    item at position [index] is the closure made for that game. *)
Definition createGameItems (games : list game)
  : list ArrowSelection.SelectableItem :=
  mapi_from (fun g index =>
               ArrowSelection.mkItem (game_id g) (game_name g)
                                     (Some (game_description g)) (Some index))
            0 games.

(** What the closure of [createGameItems] does for the game with id
    [gameId]: [setSelectedGame(game.id)], [setIsGamesMode(false)],
    [setIsPlayingGame(true)] (the delayed scroll is not modelled). *)
Definition startGame (gameId : string) (h : host) : host :=
  mkHost (gamesSelection h) (history h) false gameId true.

(** [onSelect] of [createGamesSelectionConfig]: [item.action?.()].  For
    the items of [createGameItems] the closure captured the game whose id
    is the item's id. *)
Definition onSelect (item : ArrowSelection.SelectableItem) (h : host) : host :=
  match ArrowSelection.action item with
  | Some _ => startGame (ArrowSelection.id item) h
  | None => h
  end.

(** The exit callback given to the keyboard hooks:
    [setIsGamesMode(false)], then a line of output. *)
Definition exitGamesMenu (h : host) : host :=
  mkHost (gamesSelection h)
         (addToHistory output
            ("^C" ++ newline
             ++ "Exited games menu. Type any command to continue.")
            (history h))
         false (selectedGame h) (isPlayingGame h).

(** [handleGamesSelect]: [gamesSelection.select()], the callbacks it
    invokes being run on the console state. *)
Definition handleGamesSelect (h : host) : host :=
  match snd (ArrowSelection.select (gamesSelection h)) with
  | [ArrowSelection.CallOnSelect _ item] => onSelect item h
  | _ => h
  end.

(** [createGamesSelectionConfig] and [new ArrowSelection(config)] as the
    console builds them. *)
Definition createGamesSelection (games : list game) : ArrowSelection.t :=
  ArrowSelection.create
    (ArrowSelection.mkConfig (createGameItems games) 0%nat (Some 1%nat)
       "ðŸŽ® Terminal Games Collection:"
       "Use Arrow Keys to navigate and Enter to select:").

(** The callbacks that [useGlobalKeyboardEvents] is given, run on the
    console state. *)
Definition runCall (c : KeyboardHandlers.call) (h : host) : host :=
  match c with
  | KeyboardHandlers.OnGamesUp => handleGamesUp h
  | KeyboardHandlers.OnGamesDown => handleGamesDown h
  | KeyboardHandlers.OnGamesSelect => handleGamesSelect h
  | KeyboardHandlers.OnGamesExit => exitGamesMenu h
  | _ => h
  end.

(** The listener that [Console] puts on the document through
    [useGlobalKeyboardEvents]: [handleGlobalKeyDown] with the current mode
    flags, its callbacks run on the console state.  While a game is
    mounted the game has a document listener of its own
    ([Snake.handleKeyDown]), which is not part of this function. *)
Definition globalKeyDown (e : KeyboardHandlers.KeyEvent) (h : host) : host :=
  fold_left (fun h c => runCall c h)
            (fst (KeyboardHandlers.handleGlobalKeyDown e (isGamesMode h)
                    (isPlayingGame h)))
            h.

Definition enterKey : KeyboardHandlers.KeyEvent :=
  KeyboardHandlers.mkKeyEvent "Enter" false false.

Definition snakeGame : game := mkGame "snake" "Snake" "Classic Snake Game".
Definition pongGame : game := mkGame "pong" "Pong" "Two paddles".

(** The console in games mode over two games, the menu text on screen. *)
Definition gamesHost : host :=
  mkHost (createGamesSelection [snakeGame; pongGame])
         [mkHistoryItem input "games"; mkHistoryItem output "menu"]
         true "" false.

End GameHelpers.

(** ** Facts about the generic helpers *)

Lemma iter_succ_r {St : Type} (n : nat) (f : St -> St) (s : St) :
  iter (S n) f s = f (iter n f s).
Proof.
  revert s; induction n as [|n IH]; intros s; [reflexivity|].
  change (iter (S (S n)) f s) with (iter (S n) f (f s)).
  rewrite IH. reflexivity.
Qed.

Lemma js_index_nil {A : Type} (i : Z) : js_index (@nil A) i = None.
Proof.
  unfold js_index. destruct (i <? 0); [reflexivity|].
  destruct (Z.to_nat i); reflexivity.
Qed.

Lemma js_index_some_nonempty {A : Type} (arr : list A) (i : Z) (a : A) :
  js_index arr i = Some a -> arr <> [].
Proof. intros H ->. rewrite js_index_nil in H. discriminate. Qed.


(** ** Facts about binary64 rounding *)

Lemma Qpow2_pos (e : Z) : (0 < Qpow2 e)%Q.
Proof.
  unfold Qpow2. destruct (Z.leb_spec 0 e).
  - change 0%Q with (inject_Z 0). rewrite <- Zlt_Qlt.
    apply Z.pow_pos_nonneg; lia.
  - reflexivity.
Qed.

Lemma Qpow2_opp_mul (c : Z) : (Qpow2 (- c) * Qpow2 c == 1)%Q.
Proof.
  unfold Qpow2.
  destruct (Z.leb_spec 0 c), (Z.leb_spec 0 (- c)).
  - assert (c = 0) by lia. subst. reflexivity.
  - rewrite Z.opp_involutive.
    assert (Hp : 0 < 2 ^ c) by (apply Z.pow_pos_nonneg; lia).
    unfold Qeq, Qmult, inject_Z. cbn [Qnum Qden].
    rewrite Pos2Z.inj_mul, Z2Pos.id by exact Hp. lia.
  - assert (Hp : 0 < 2 ^ (- c)) by (apply Z.pow_pos_nonneg; lia).
    unfold Qeq, Qmult, inject_Z. cbn [Qnum Qden].
    rewrite Pos2Z.inj_mul, Z2Pos.id by exact Hp. lia.
  - lia.
Qed.

Lemma Qpow2_le_1 (c : Z) : c <= 0 -> (Qpow2 c <= 1)%Q.
Proof.
  intros H. unfold Qpow2. destruct (Z.leb_spec 0 c).
  - assert (c = 0) by lia. subst. discriminate.
  - unfold Qle. cbn. rewrite Z2Pos.id by (apply Z.pow_pos_nonneg; lia).
    assert (0 < 2 ^ (- c)) by (apply Z.pow_pos_nonneg; lia). lia.
Qed.

Lemma roundHalfEven_floor (s : Q) :
  roundHalfEven s = Qfloor s
  \/ (roundHalfEven s = Qfloor s + 1 /\ (1 # 2 <= s - inject_Z (Qfloor s))%Q).
Proof.
  unfold roundHalfEven. cbn zeta.
  destruct (s - inject_Z (Qfloor s) ?= 1 # 2)%Q eqn:E.
  - apply Qeq_alt in E. destruct (Z.even (Qfloor s)); [left; reflexivity|].
    right. split; [reflexivity|]. rewrite E. apply Qle_refl.
  - left. reflexivity.
  - apply Qgt_alt in E. right. split; [reflexivity|]. apply Qlt_le_weak, E.
Qed.

Lemma roundHalfEven_upper (s : Q) : (inject_Z (roundHalfEven s) <= s + (1 # 2))%Q.
Proof.
  pose proof (Qfloor_le s) as Hf.
  destruct (roundHalfEven_floor s) as [->|[-> H]].
  - lra.
  - rewrite inject_Z_plus. change (inject_Z 1) with 1%Q. lra.
Qed.

Lemma roundHalfEven_nonneg (s : Q) : (0 <= s)%Q -> 0 <= roundHalfEven s.
Proof.
  intros H.
  assert (0 <= Qfloor s).
  { change 0 with (Qfloor (inject_Z 0)). apply Qfloor_resp_le. exact H. }
  destruct (roundHalfEven_floor s) as [->|[-> _]]; lia.
Qed.

Lemma roundHalfEven_below (T : Z) (s : Q) :
  (s < inject_Z T - (1 # 2))%Q -> roundHalfEven s <= T - 1.
Proof.
  intros H. pose proof (Qfloor_le s) as Hf.
  assert (Hlt : Qfloor s < T).
  { rewrite Zlt_Qlt. lra. }
  destruct (roundHalfEven_floor s) as [->|[-> Hh]]; [lia|].
  assert (Qfloor s + 1 < T); [|lia].
  rewrite Zlt_Qlt, inject_Z_plus. change (inject_Z 1) with 1%Q. lra.
Qed.

Lemma Qabs_nonneg_eq (x : Q) : (0 <= x)%Q -> Qabs x = x.
Proof.
  destruct x as [n d]. unfold Qle. cbn. intros H.
  rewrite Z.abs_eq by lia. reflexivity.
Qed.

Lemma Qfloor_between (x : Q) (a b : Z) :
  (inject_Z a <= x)%Q -> (x < inject_Z b)%Q -> a <= Qfloor x < b.
Proof.
  intros Ha Hb. split.
  - rewrite <- (Qfloor_Z a). apply Qfloor_resp_le, Ha.
  - rewrite Zlt_Qlt. eapply Qle_lt_trans; [apply Qfloor_le | exact Hb].
Qed.

Lemma magnitude_small (x : Q) :
  (0 <= x)%Q -> (x < 16)%Q -> magnitude x <= 53.
Proof.
  intros H0 H. unfold magnitude. rewrite (Qabs_nonneg_eq x H0). cbn zeta.
  destruct (Qle_bool 1 x) eqn:E.
  - apply Qle_bool_iff in E.
    destruct (Qfloor_between x 1 16 E H) as [Ha Hb].
    assert (Z.log2 (Qfloor x) <= Z.log2 15) by (apply Z.log2_le_mono; lia).
    change (Z.log2 15) with 3 in *. lia.
  - pose proof (Z.log2_up_nonneg (Qceiling (/ x))). lia.
Qed.

Lemma magnitude_16_32 (x : Q) :
  (16 <= x)%Q -> (x < 32)%Q -> magnitude x = 5.
Proof.
  intros H0 H. unfold magnitude.
  rewrite (Qabs_nonneg_eq x) by lra. cbn zeta.
  destruct (Qle_bool 1 x) eqn:E.
  - destruct (Qfloor_between x 16 32 H0 H) as [Ha Hb].
    rewrite (Z.log2_unique (Qfloor x) 4); [reflexivity | lia |].
    change (2 ^ 4) with 16. change (2 ^ (4 + 1)) with 32. lia.
  - assert (Qle_bool 1 x = true) by (apply Qle_bool_iff; lra). congruence.
Qed.

Lemma binary64_round_nonneg (x : Q) : (0 <= x)%Q -> (0 <= binary64_round x)%Q.
Proof.
  intros H. unfold binary64_round. cbn zeta.
  apply Qmult_le_0_compat; [|apply Qlt_le_weak, Qpow2_pos].
  change 0%Q with (inject_Z 0). rewrite <- Zle_Qle.
  apply roundHalfEven_nonneg.
  apply Qmult_le_0_compat; [exact H | apply Qlt_le_weak, Qpow2_pos].
Qed.

(** A product of 25 with a binary64 number below 1 is at most
    [25 - 25 * 2^-53], and that still rounds below 25. *)
Lemma binary64_round_below_25 (x : Q) :
  (0 <= x)%Q -> (x <= 25 - (25 # 9007199254740992))%Q ->
  (binary64_round x < 25)%Q.
Proof.
  intros H0 H. destruct (Qlt_le_dec x 16) as [Hs|Hb].
  - unfold binary64_round. cbn zeta.
    set (c := Z.max (magnitude x - 53) (-1074)).
    assert (Hc : c <= 0) by (pose proof (magnitude_small x H0 Hs); lia).
    pose proof (Qpow2_pos c) as Hp. pose proof (Qpow2_le_1 c Hc) as Hp1.
    pose proof (Qpow2_opp_mul c) as Hinv.
    pose proof (roundHalfEven_upper (x * Qpow2 (- c))) as Hr.
    eapply Qle_lt_trans.
    { apply Qmult_le_compat_r; [exact Hr | apply Qlt_le_weak, Hp]. }
    setoid_replace ((x * Qpow2 (- c) + (1 # 2)) * Qpow2 c)%Q
      with (x * (Qpow2 (- c) * Qpow2 c) + (1 # 2) * Qpow2 c)%Q by ring.
    rewrite Hinv. lra.
  - unfold binary64_round. cbn zeta.
    rewrite (magnitude_16_32 x Hb) by lra.
    change (Z.max (5 - 53) (-1074)) with (-48).
    change (Qpow2 (- -48)) with (inject_Z 281474976710656).
    change (Qpow2 (-48)) with (1 # 281474976710656)%Q.
    assert (Hr : roundHalfEven (x * inject_Z 281474976710656)
                 <= 25 * 281474976710656 - 1).
    { apply roundHalfEven_below.
      change (inject_Z (25 * 281474976710656)) with (7036874417766400 # 1)%Q.
      change (inject_Z 281474976710656) with (281474976710656 # 1)%Q. lra. }
    rewrite Zle_Qle in Hr.
    change (inject_Z (25 * 281474976710656 - 1))
      with (7036874417766399 # 1)%Q in Hr.
    lra.
Qed.

(** A binary64 number below 1 is at most [1 - 2^-53]. *)
Lemma binary64_below_one (u : Q) :
  binary64 u -> (u < 1)%Q -> (u <= 1 - (1 # 9007199254740992))%Q.
Proof.
  intros (m & e & Hm & He & ->) H. revert H. unfold Qpow2.
  destruct (Z.leb_spec 0 e) as [Hpos|Hneg].
  - rewrite <- inject_Z_mult. change 1%Q with (inject_Z 1).
    rewrite <- Zlt_Qlt. intros H.
    assert (Hle : m * 2 ^ e <= 0) by lia.
    rewrite Zle_Qle in Hle. change (inject_Z 0) with 0%Q in Hle.
    change (inject_Z 1) with 1%Q. lra.
  - assert (Hp : 0 < 2 ^ (- e)) by (apply Z.pow_pos_nonneg; lia).
    remember (Z.to_pos (2 ^ (- e))) as p eqn:Ep.
    assert (HP : Z.pos p = 2 ^ (- e)) by (subst p; apply Z2Pos.id, Hp).
    unfold Qlt, Qle, Qmult, Qminus, Qplus, Qopp, inject_Z. cbn [Qnum Qden].
    rewrite !Pos.mul_1_l. clear Ep. intros H.
    change (2 ^ 53) with 9007199254740992 in Hm.
    assert (Hcases : Z.pos p <= 9007199254740992 \/ 9007199254740992 < Z.pos p)
      by lia.
    destruct Hcases; nia.
Qed.

(** Adding 0 to a small integer is exact. *)
Lemma binary64_round_small_integer (k : Z) :
  0 <= k < 25 ->
  Qfloor (binary64_round (inject_Z k + inject_Z 0)) = k.
Proof.
  intros H. assert (E : k = Z.of_nat (Z.to_nat k)) by lia.
  assert (Hj : (Z.to_nat k < 25)%nat) by lia.
  rewrite E. generalize dependent (Z.to_nat k). intros j _ Hj.
  do 25 (destruct j as [|j]; [vm_compute; reflexivity|]). lia.
Qed.

Lemma binary64_round_25 :
  (binary64_round (inject_Z 25 - inject_Z 0) == 25)%Q.
Proof. vm_compute. reflexivity. Qed.

(** [Math.floor(u * 25) + 0] for a binary64 number [u] in [[0, 1)]. *)
Lemma floor_of_product_in_range (u : Q) :
  binary64 u -> (0 <= u)%Q -> (u < 1)%Q ->
  0 <= Qfloor
         (binary64_round
            (inject_Z
               (Qfloor
                  (binary64_round
                     (u * binary64_round (inject_Z 25 - inject_Z 0))))
             + inject_Z 0)) < 25.
Proof.
  intros Hb H0 H1. pose proof (binary64_below_one u Hb H1) as Hu.
  set (x := (u * binary64_round (inject_Z 25 - inject_Z 0))%Q).
  assert (Hx0 : (0 <= x)%Q).
  { unfold x. rewrite binary64_round_25. lra. }
  assert (Hx1 : (x <= 25 - (25 # 9007199254740992))%Q).
  { unfold x. rewrite binary64_round_25. lra. }
  assert (Hk : 0 <= Qfloor (binary64_round x) < 25).
  { apply Qfloor_between.
    - apply binary64_round_nonneg, Hx0.
    - apply binary64_round_below_25; assumption. }
  rewrite (binary64_round_small_integer _ Hk). exact Hk.
Qed.

(** ** The selection menu: cursor movement *)

Section MenuFacts.

Import ArrowSelection.

Lemma with_index_same (m : t) : with_index (currentIndex m) m = m.
Proof. destruct m; reflexivity. Qed.

Lemma items_moveDown (m : t) : items (moveDown m) = items m.
Proof. reflexivity. Qed.

Lemma items_iter_moveDown (j : nat) (m : t) :
  items (iter j moveDown m) = items m.
Proof.
  revert m; induction j as [|j IH]; intros m; [reflexivity|].
  cbn [iter]. rewrite IH. apply items_moveDown.
Qed.

(** Inside the list, [moveDown] is the successor modulo the length. *)
Lemma moveDown_in_range (m : t) :
  in_range m ->
  moveDown m = with_index ((currentIndex m + 1) mod js_length (items m)) m.
Proof.
  unfold in_range, moveDown. intros H. f_equal.
  destruct (Z.ltb_spec (currentIndex m) (js_length (items m) - 1)) as [Hlt|Hge].
  - rewrite Z.mod_small; lia.
  - replace (currentIndex m + 1) with (js_length (items m)) by lia.
    rewrite Z.mod_same; lia.
Qed.

Lemma moveDown_keeps_range (m : t) : in_range m -> in_range (moveDown m).
Proof.
  intros H. rewrite (moveDown_in_range m H). unfold in_range in *. cbn.
  apply Z.mod_pos_bound. lia.
Qed.

(** [j] calls of [moveDown] advance the cursor by [j] modulo the length. *)
Lemma moveDown_iter_in_range (j : nat) (m : t) :
  in_range m ->
  iter j moveDown m =
  with_index ((currentIndex m + Z.of_nat j) mod js_length (items m)) m.
Proof.
  intros H. induction j as [|j IH].
  - cbn [iter]. rewrite Z.add_0_r, Z.mod_small by exact H.
    symmetry. apply with_index_same.
  - rewrite iter_succ_r, IH.
    assert (Hr : in_range (with_index
               ((currentIndex m + Z.of_nat j) mod js_length (items m)) m)).
    { unfold in_range in *. cbn. apply Z.mod_pos_bound. lia. }
    rewrite (moveDown_in_range _ Hr). cbn. unfold with_index. cbn. f_equal.
    rewrite Zplus_mod_idemp_l. f_equal. lia.
Qed.

(** Outside the list the cursor never comes back: it only grows until it
    has entered the list, and then it stays inside. *)
Lemma moveDown_iter_out_of_range (j : nat) (m : t) :
  (0 < length (items m))%nat ->
  ~ in_range m ->
  (0 < j)%nat ->
  currentIndex (iter j moveDown m) <> currentIndex m.
Proof.
  intros Hne Hout Hj.
  assert (Hinv : forall k, (0 < k)%nat ->
            currentIndex m < currentIndex (iter k moveDown m) \/
            in_range (iter k moveDown m)).
  { induction k as [|k IH]; [lia|]. intros _.
    rewrite iter_succ_r.
    destruct k as [|k].
    - cbn [iter]. unfold in_range, moveDown. cbn.
      unfold in_range, js_length in *.
      destruct (Z.ltb_spec (currentIndex m)
                  (Z.of_nat (length (items m)) - 1)); lia.
    - specialize (IH ltac:(lia)).
      assert (Hit := items_iter_moveDown (S k) m).
      remember (iter (S k) moveDown m) as m' eqn:Em'. clear Em'.
      destruct IH as [IH|IH].
      + unfold in_range, moveDown. cbn.
        destruct (Z.ltb_spec (currentIndex m') (js_length (items m') - 1));
          [left; lia|right].
        unfold js_length. rewrite Hit. lia.
      + right. apply moveDown_keeps_range, IH. }
  destruct (Hinv j Hj) as [H|H]; [lia|].
  intros Heq. apply Hout. unfold in_range in *.
  rewrite items_iter_moveDown in H. lia.
Qed.

(** Inside a non-empty list, [moveUp] is the predecessor modulo the
    length: it decrements, and wraps from [0] to [items.length - 1]. *)
Lemma moveUp_in_range (m : t) :
  in_range m ->
  currentIndex (moveUp m) =
    (if currentIndex m =? 0 then js_length (items m) - 1
     else currentIndex m - 1)
  /\ items (moveUp m) = items m
  /\ in_range (moveUp m).
Proof.
  unfold in_range, moveUp. cbn. intros H.
  destruct (Z.gtb_spec (currentIndex m) 0), (Z.eqb_spec (currentIndex m) 0);
    repeat split; lia.
Qed.

(** Right after construction [moveUp] gives [items.length - 1], also for
    an empty list, where that is [-1]. *)
Lemma moveUp_after_create (config : ArrowSelectionConfig) :
  currentIndex (moveUp (create config)) = js_length (cfg_items config) - 1.
Proof. reflexivity. Qed.

(** [moveDown] on the empty list of a fresh menu does keep the cursor at 0,
    and [removeItem] never leaves a cursor that was inside the list below 0:
    the sibling paths treat the empty list as "cursor 0". *)
Lemma moveDown_empty_fresh (config : ArrowSelectionConfig) :
  cfg_items config = [] ->
  moveDown (create config) = create config.
Proof. intros H. unfold moveDown, create. cbn. rewrite H. reflexivity. Qed.

Lemma removeItem_cursor_nonneg (i : string) (m : t) :
  0 <= currentIndex m -> 0 <= currentIndex (removeItem i m).
Proof.
  intros H. unfold removeItem.
  match goal with |- context [if ?b then _ else _] => destruct b end;
    cbn; lia.
Qed.

(** The invariant holds after construction and is kept by every mutator
    except [moveUp] on an empty list. *)
Lemma cursor_ok_create (config : ArrowSelectionConfig) :
  cursor_ok (create config).
Proof.
  unfold cursor_ok, in_range, js_length. cbn.
  destruct (cfg_items config); [right; split; reflexivity | left; cbn; lia].
Qed.

Lemma cursor_ok_moveDown (m : t) : cursor_ok m -> cursor_ok (moveDown m).
Proof.
  intros [H|[Hi Hc]]; [left; apply moveDown_keeps_range, H|].
  right. unfold moveDown. cbn. rewrite Hi, Hc. split; reflexivity.
Qed.

Lemma cursor_ok_moveUp (m : t) :
  items m <> [] -> cursor_ok m -> cursor_ok (moveUp m).
Proof.
  intros Hne [H|[Hi _]]; [|congruence].
  left. apply moveUp_in_range, H.
Qed.

Lemma cursor_ok_addItem (item : SelectableItem) (m : t) :
  cursor_ok m -> cursor_ok (addItem item m).
Proof.
  unfold cursor_ok, in_range, addItem, js_length. cbn.
  rewrite length_app. cbn [length].
  intros [H|[Hi Hc]]; left; [lia|]. rewrite Hi, Hc. cbn. lia.
Qed.

Lemma cursor_ok_removeItem (i : string) (m : t) :
  cursor_ok m -> cursor_ok (removeItem i m).
Proof.
  intros H.
  assert (H0 : 0 <= currentIndex m).
  { destruct H as [H|[_ H]]; [apply H | rewrite H; lia]. }
  unfold removeItem, cursor_ok, in_range, js_length. cbn.
  set (l := filter _ (items m)).
  destruct (Z.geb_spec (currentIndex m) (Z.of_nat (length l))) as [Hge|Hlt];
    cbn; [|left; lia].
  destruct l as [|a l]; [right; split; reflexivity | left; cbn [length]; lia].
Qed.

End MenuFacts.

(** ** The selection menu: the properties of the design document *)

Section MenuProperties.

Import ArrowSelection.

(** C5. For a non-empty item list and a cursor that names one of its
    items, [items.length] calls of [moveDown()] bring the cursor back to
    where it started (and leave the rest of the menu as it was). *)
Theorem C5_moveDown_full_cycle (m : t) :
  items m <> [] ->
  in_range m ->
  currentIndex (iter (length (items m)) moveDown m) = currentIndex m
  /\ iter (length (items m)) moveDown m = m.
Proof.
  intros _ H.
  assert (E : iter (length (items m)) moveDown m = m).
  { rewrite (moveDown_iter_in_range _ m H).
    fold (js_length (items m)).
    replace (currentIndex m + js_length (items m))
      with (currentIndex m + 1 * js_length (items m)) by lia.
    unfold in_range in H.
    rewrite Z.mod_add by lia. rewrite Z.mod_small by lia.
    apply with_index_same. }
  rewrite E. split; reflexivity.
Qed.

Lemma C5_moveDown_full_cycle_witness :
  currentIndex (iter (length (items (moveDown gamesMenu))) moveDown
                  (moveDown gamesMenu)) = 1
  /\ iter (length (items (moveDown gamesMenu))) moveDown (moveDown gamesMenu)
     = moveDown gamesMenu.
Proof.
  apply (C5_moveDown_full_cycle (moveDown gamesMenu)).
  - discriminate.
  - unfold in_range. vm_compute. split; [discriminate | reflexivity].
Defined.

(** C6, at the input where the code departs from it. A menu constructed
    over an empty item list has its cursor at [0]; [moveUp()] stores
    [items.length - 1 = -1] in it, so the call is not a no-op, and the
    cursor stays at [-1] when an item is added afterwards: no item is
    current although the list is non-empty. *)
Theorem C6_moveUp_empty_list_sets_minus_one
    (f : callback) (g : option callback) (ttl ins : string)
    (item : SelectableItem) :
  let m := create (mkConfig [] f g ttl ins) in
  currentIndex m = 0
  /\ currentIndex (moveUp m) = -1
  /\ moveUp m <> m
  /\ getCurrentItem (addItem item (moveUp m)) = None.
Proof.
  cbn. repeat split. discriminate.
Qed.

(** C7. On a menu without items, whatever the cursor, [select()] returns
    normally, invokes no callback and changes nothing. *)
Theorem C7_select_empty_no_callback (m : t) :
  items m = [] ->
  select m = (m, []).
Proof.
  intros H. unfold select. rewrite H, js_index_nil. reflexivity.
Qed.

Lemma C7_select_empty_no_callback_witness :
  select emptyMenu = (emptyMenu, []).
Proof.
  apply (C7_select_empty_no_callback emptyMenu).
  reflexivity.
Defined.

(** C9. [select()] and [exit()] return the menu as they found it: the same
    items, the same cursor.  [select()] invokes exactly
    [onSelect(items[cursor])] when that item exists - which needs a
    non-empty list - and nothing otherwise; [exit()] invokes exactly
    [onExit()] when one was given and nothing otherwise. *)
Theorem C9_select_exit_frame (m : t) :
  (fst (select m) = m
   /\ items (fst (select m)) = items m
   /\ currentIndex (fst (select m)) = currentIndex m)
  /\ (fst (exit m) = m
      /\ items (fst (exit m)) = items m
      /\ currentIndex (fst (exit m)) = currentIndex m)
  /\ snd (select m) = match getCurrentItem m with
                      | Some item => [CallOnSelect (onSelect m) item]
                      | None => []
                      end
  /\ (getCurrentItem m = None \/ (0 < length (items m))%nat)
  /\ snd (exit m) = match onExit m with
                    | Some f => [CallOnExit f]
                    | None => []
                    end.
Proof.
  unfold select, exit, getCurrentItem.
  destruct (js_index (items m) (currentIndex m)) as [item|] eqn:E;
    destruct (onExit m); cbn [fst snd]; repeat split; auto;
    right; apply js_index_some_nonempty in E;
    destruct (items m); [congruence | cbn; lia | congruence | cbn; lia].
Qed.

(** C10. On a menu without items, whatever the cursor, [getCurrentItem()]
    yields [undefined]: there is no item to return. *)
Theorem C10_getCurrentItem_empty_undefined (m : t) :
  items m = [] ->
  getCurrentItem m = None.
Proof.
  intros H. unfold getCurrentItem. rewrite H. apply js_index_nil.
Qed.

Lemma C10_getCurrentItem_empty_undefined_witness :
  getCurrentItem emptyMenu = None.
Proof.
  apply (C10_getCurrentItem_empty_undefined emptyMenu).
  reflexivity.
Defined.

End MenuProperties.

(** ** The Snake simulation: random cells, reset and apple *)

Section SnakeBasics.

Import Snake.

Variable random : nat -> Q.

Lemma getRandomInt_0_25 (s : state) :
  getRandomInt random 0 25 s = (drawIndex random (draws s), set_draws (S (draws s)) s).
Proof. unfold getRandomInt, drawIndex. reflexivity. Qed.

Lemma drawIndex_range (n : nat) :
  unit_interval random -> 0 <= drawIndex random n < 25.
Proof.
  intros H. destruct (H n) as (Hb & H0 & H1).
  apply floor_of_product_in_range; assumption.
Qed.

(** [resetGame] leaves the state it was written to produce. *)
Lemma resetGame_fields (s : state) :
  resetGame random s =
  {| count := count s;
     snake_x := 160; snake_y := 160; snake_dx := grid; snake_dy := 0;
     snake_cells := []; snake_maxCells := 4;
     apple_x := drawIndex random (draws s) * grid;
     apple_y := drawIndex random (S (draws s)) * grid;
     score := 0;
     draws := S (S (draws s)) |}.
Proof.
  unfold resetGame. rewrite !getRandomInt_0_25. reflexivity.
Qed.

Lemma eatApple_fields (s : state) :
  eatApple random s =
  {| count := count s;
     snake_x := snake_x s; snake_y := snake_y s;
     snake_dx := snake_dx s; snake_dy := snake_dy s;
     snake_cells := snake_cells s; snake_maxCells := snake_maxCells s + 1;
     apple_x := drawIndex random (draws s) * grid;
     apple_y := drawIndex random (S (draws s)) * grid;
     score := score s + 10;
     draws := S (S (draws s)) |}.
Proof.
  unfold eatApple. rewrite !getRandomInt_0_25. reflexivity.
Qed.

Lemma drawn_cell_in_board (n : nat) :
  unit_interval random ->
  in_board (drawIndex random n * grid) (drawIndex random (S n) * grid).
Proof.
  intros H. exists (drawIndex random n), (drawIndex random (S n)).
  repeat split; try apply (drawIndex_range _ H).
Qed.

(** *** The collision loop *)

Lemma collisionLoop_nil (fuel i : nat) (c : cell) (s : state) :
  snake_cells s = [] -> collisionLoop random fuel i c s = s.
Proof.
  intros H. destruct fuel; cbn; [reflexivity|].
  rewrite H. destruct i; reflexivity.
Qed.

Lemma nth_error_skipn_cons {A : Type} (l : list A) (i : nat) (a : A) :
  nth_error l i = Some a -> skipn i l = a :: skipn (S i) l.
Proof.
  revert i; induction l as [|b l IH]; intros [|i]; cbn; try discriminate.
  - intros [= ->]. reflexivity.
  - intros H. rewrite (IH i H). reflexivity.
Qed.

(** With fuel for every index that is left, the loop resets the game when
    some cell from position [i] on equals [c], and does nothing
    otherwise.  In particular the result does not depend on the fuel. *)
Lemma collisionLoop_spec (fuel i : nat) (c : cell) (s : state) :
  (length (snake_cells s) <= i + fuel)%nat ->
  collisionLoop random fuel i c s =
  if existsb (cell_eqb c) (skipn i (snake_cells s))
  then resetGame random s else s.
Proof.
  revert i s; induction fuel as [|fuel IH]; intros i s Hlen.
  - cbn. rewrite skipn_all2 by lia. reflexivity.
  - cbn [collisionLoop].
    destruct (nth_error (snake_cells s) i) as [ci|] eqn:E.
    + rewrite (nth_error_skipn_cons _ _ _ E). cbn [existsb].
      destruct (cell_eqb c ci); cbn [orb].
      * apply collisionLoop_nil. rewrite resetGame_fields. reflexivity.
      * apply IH. lia.
    + apply nth_error_None in E. rewrite skipn_all2 by lia. reflexivity.
Qed.

Lemma collisionLoop_total (fuel i : nat) (c : cell) (s : state) :
  (length (snake_cells s) <= i + fuel)%nat ->
  collisionLoop random fuel i c s =
  collisionLoop random (length (snake_cells s)) i c s.
Proof.
  intros H. rewrite !collisionLoop_spec by lia. reflexivity.
Qed.

(** The callback of [forEach] in closed form. *)
Lemma visitCell_spec (c : cell) (index : nat) (s : state) :
  visitCell random c index s =
  let s1 := if onApple c s then eatApple random s else s in
  if existsb (cell_eqb c) (skipn (S index) (snake_cells s1))
  then resetGame random s1 else s1.
Proof.
  unfold visitCell. cbn zeta.
  destruct (onApple c s);
    apply collisionLoop_spec, Nat.le_add_l.
Qed.

End SnakeBasics.

(** ** The Snake simulation: one tick *)

Section SnakeTick.

Import Snake.

Variable random : nat -> Q.

Lemma moveSnake_fields (s : state) :
  let x' := wrap canvas_width (snake_x s + snake_dx s) in
  let y' := wrap canvas_height (snake_y s + snake_dy s) in
  let l := mkCell x' y' :: snake_cells s in
  moveSnake s =
  {| count := count s;
     snake_x := x'; snake_y := y';
     snake_dx := snake_dx s; snake_dy := snake_dy s;
     snake_cells := if js_length l >? snake_maxCells s then removelast l else l;
     snake_maxCells := snake_maxCells s;
     apple_x := apple_x s; apple_y := apple_y s;
     score := score s;
     draws := draws s |}.
Proof.
  cbn zeta. unfold moveSnake. cbn [set_x set_y set_cells snake_x snake_y
    snake_dx snake_dy snake_cells snake_maxCells count apple_x apple_y score
    draws].
  match goal with |- context [if ?b then _ else _] => destruct b end;
    reflexivity.
Qed.

(** Five frames only count; the sixth runs the simulation step. *)
Lemma gameLoop_waits (s : state) :
  count s + 1 < 6 -> gameLoop random s = set_count (count s + 1) s.
Proof.
  intros H. unfold gameLoop. cbn zeta. cbn [count set_count].
  destruct (Z.ltb_spec (count s + 1) 6); [reflexivity | lia].
Qed.

Lemma gameLoop_fires (s : state) :
  6 <= count s + 1 ->
  gameLoop random s = gameTick random (set_count 0 s).
Proof.
  intros H. unfold gameLoop. cbn zeta. cbn [count set_count].
  destruct (Z.ltb_spec (count s + 1) 6); [lia|].
  destruct s; reflexivity.
Qed.

Lemma six_frames_one_tick (s : state) :
  count s = 0 -> iter 6 (gameLoop random) s = gameTick random s.
Proof.
  intros H. destruct s as [c x y dx dy cs mc ax ay sc dr]. cbn in H. subst c.
  cbn [iter].
  repeat (rewrite gameLoop_waits by (cbn; lia); cbn [count set_count]).
  rewrite gameLoop_fires by (cbn; lia). reflexivity.
Qed.

Lemma selfCollides_cons_false (c : cell) (rest : list cell) :
  selfCollides (c :: rest) = false ->
  existsb (cell_eqb c) rest = false /\ selfCollides rest = false.
Proof. cbn. apply orb_false_elim. Qed.

Lemma skipn_past_prefix {A : Type} (pre : list A) (a : A) (rest : list A) :
  skipn (S (length pre)) (pre ++ a :: rest) = rest.
Proof. induction pre as [|b pre IH]; [reflexivity | exact IH]. Qed.

(** When no cell still to be visited lies on the apple or equals a later
    one, the rest of the [forEach] leaves every variable alone. *)
Lemma forEachCell_quiet (arr pre : list cell) (s : state) :
  snake_cells s = pre ++ arr ->
  existsb (fun c => onApple c s) arr = false ->
  selfCollides arr = false ->
  forEachCell random arr (length pre) s = s.
Proof.
  revert pre; induction arr as [|c rest IH]; intros pre Hc Ha Hs;
    [reflexivity|].
  cbn [forEachCell]. cbn [existsb] in Ha. apply orb_false_elim in Ha.
  destruct Ha as [Hac Ha]. apply selfCollides_cons_false in Hs.
  destruct Hs as [Hcc Hs].
  assert (E : visitCell random c (length pre) s = s).
  { rewrite visitCell_spec, Hac. cbn zeta.
    rewrite Hc, skipn_past_prefix, Hcc. reflexivity. }
  rewrite E.
  replace (S (length pre)) with (length (pre ++ [c]))
    by (rewrite length_app; cbn; lia).
  apply IH; auto. rewrite <- app_assoc. exact Hc.
Qed.

Lemma gameTick_quiet (s : state) :
  quietTick s = true -> gameTick random s = moveSnake s.
Proof.
  unfold quietTick, gameTick, appleHit. cbn zeta. intros H.
  apply andb_prop in H. destruct H as [Ha Hs].
  apply negb_true_iff in Ha. apply negb_true_iff in Hs.
  apply (forEachCell_quiet _ []); auto.
Qed.

(** A property that [eatApple] and [resetGame] keep is kept by the whole
    [forEach], and so by a tick that starts from it after the move. *)
Section Preservation.

Variable P : state -> Prop.
Hypothesis P_eat : forall s, P s -> P (eatApple random s).
Hypothesis P_reset : forall s, P s -> P (resetGame random s).

Lemma visitCell_preserves (c : cell) (i : nat) (s : state) :
  P s -> P (visitCell random c i s).
Proof.
  intros H. rewrite visitCell_spec. cbn zeta.
  destruct (onApple c s);
    match goal with |- context [if ?b then _ else _] => destruct b end;
    auto.
Qed.

Lemma forEachCell_preserves (arr : list cell) (i : nat) (s : state) :
  P s -> P (forEachCell random arr i s).
Proof.
  revert i s; induction arr as [|c rest IH]; intros i s H; [exact H|].
  cbn [forEachCell]. apply IH, visitCell_preserves, H.
Qed.

End Preservation.

End SnakeTick.

(** ** The Snake simulation: undisturbed movement *)

Section SnakeMovement.

Import Snake.

Variable random : nat -> Q.

(** On coordinates that are multiples of the grid, the two-sided wrap is
    the remainder modulo the board extent. *)
Lemma wrap_step (n v : Z) :
  (grid | n) ->
  v = - grid \/ v = 0 \/ v = grid ->
  wrap 400 (n mod 400 + v) = (n + v) mod 400.
Proof.
  intros [q ->] Hv. unfold wrap, grid in *.
  destruct (Z.ltb_spec (q * 16 mod 400 + v) 0);
    [|destruct (Z.geb_spec (q * 16 mod 400 + v) 400)];
    Z.div_mod_to_equations; lia.
Qed.

Lemma wrap_negative (extent v : Z) : v < 0 -> wrap extent v = extent - grid.
Proof. intros H. unfold wrap. destruct (Z.ltb_spec v 0); lia. Qed.

Lemma wrap_overflow (extent v : Z) : 0 <= v -> extent <= v -> wrap extent v = 0.
Proof.
  intros H0 H. unfold wrap.
  destruct (Z.ltb_spec v 0); [lia|]. destruct (Z.geb_spec v extent); lia.
Qed.

Lemma velocity_cases (d : direction) :
  (fst (velocity d) = - grid \/ fst (velocity d) = 0 \/ fst (velocity d) = grid)
  /\ (snd (velocity d) = - grid \/ snd (velocity d) = 0
      \/ snd (velocity d) = grid).
Proof. destruct d; cbn; auto. Qed.

Lemma steps_divisible (k v : Z) :
  v = - grid \/ v = 0 \/ v = grid -> (grid | 160 + k * v).
Proof.
  unfold grid. intros [-> | [-> | ->]].
  - exists (10 - k). lia.
  - exists 10. lia.
  - exists (10 + k). lia.
Qed.

Lemma quietRun_succ (k : nat) (s : state) :
  quietRun random (S k) s =
  quietTick s && quietRun random k (gameTick random s).
Proof. reflexivity. Qed.

Lemma quietRun_snoc (k : nat) (s : state) :
  quietRun random (S k) s =
  quietRun random k s && quietTick (iter k (gameTick random) s).
Proof.
  revert s; induction k as [|k IH]; intros s.
  - cbn. rewrite andb_true_r. reflexivity.
  - rewrite (quietRun_succ (S k)), IH, (quietRun_succ k).
    cbn [iter]. rewrite andb_assoc. reflexivity.
Qed.

Lemma length_removelast_cons {A : Type} (a : A) (l : list A) :
  length (removelast (a :: l)) = length l.
Proof.
  rewrite removelast_firstn_len. cbn [length Init.Nat.pred].
  rewrite length_firstn. cbn [length]. lia.
Qed.

Lemma hd_removelast_cons {A : Type} (a : A) (l : list A) :
  l <> [] -> hd_error (removelast (a :: l)) = Some a.
Proof. destruct l; [congruence | reflexivity]. Qed.

Lemma afterQuiet_start (d : direction) (s : state) :
  freshSnake s -> moving d s -> afterQuiet d 0 s.
Proof.
  intros (Hx & Hy & Hc & Hm) Hd. unfold afterQuiet.
  rewrite Hx, Hy, Hc, Hm. cbn. repeat split; auto.
Qed.

Lemma afterQuiet_step (d : direction) (k : nat) (s : state) :
  afterQuiet d k s -> afterQuiet d (S k) (moveSnake s).
Proof.
  intros (Hd & Hm & Hx & Hy & Hl & Hh).
  pose proof (moveSnake_fields s) as E. cbn zeta in E. rewrite E. clear E.
  unfold moving in Hd.
  assert (Hdx : snake_dx s = fst (velocity d)) by (rewrite <- Hd; reflexivity).
  assert (Hdy : snake_dy s = snd (velocity d)) by (rewrite <- Hd; reflexivity).
  destruct (velocity_cases d) as [Vx Vy].
  unfold afterQuiet, moving.
  cbn [snake_x snake_y snake_dx snake_dy snake_cells snake_maxCells].
  rewrite Hm, Hx, Hy, Hdx, Hdy. unfold canvas_width, canvas_height.
  rewrite !wrap_step by auto using steps_divisible.
  replace (160 + Z.of_nat k * fst (velocity d) + fst (velocity d))
    with (160 + Z.of_nat (S k) * fst (velocity d)) by lia.
  replace (160 + Z.of_nat k * snd (velocity d) + snd (velocity d))
    with (160 + Z.of_nat (S k) * snd (velocity d)) by lia.
  split; [symmetry; apply surjective_pairing|].
  split; [reflexivity|]. split; [reflexivity|]. split; [reflexivity|].
  unfold js_length in *. cbn [length].
  destruct (Z.gtb_spec (Z.of_nat (S (length (snake_cells s)))) 4) as [Hgt|Hle].
  - split; [rewrite length_removelast_cons; lia|].
    apply hd_removelast_cons. destruct (snake_cells s); [cbn in Hgt; lia|].
    discriminate.
  - split; [cbn [length]; lia | reflexivity].
Qed.

Lemma afterQuiet_run (d : direction) (k : nat) (s : state) :
  freshSnake s -> moving d s ->
  quietRun random k s = true ->
  afterQuiet d k (iter k (gameTick random) s).
Proof.
  intros Hf Hd. induction k as [|k IH]; intros Hq.
  - apply afterQuiet_start; assumption.
  - rewrite quietRun_snoc in Hq. apply andb_prop in Hq.
    destruct Hq as [Hq Ht]. rewrite iter_succ_r, (gameTick_quiet _ _ Ht).
    apply afterQuiet_step, IH, Hq.
Qed.

End SnakeMovement.

(** ** The Snake simulation: the velocity *)

Section SnakeVelocity.

Import Snake.

Variable random : nat -> Q.

Lemma moving_axis_aligned (d : direction) (s : state) :
  moving d s -> axis_aligned s.
Proof.
  unfold moving, axis_aligned. intros H.
  assert (Hx : snake_dx s = fst (velocity d)) by (rewrite <- H; reflexivity).
  assert (Hy : snake_dy s = snd (velocity d)) by (rewrite <- H; reflexivity).
  rewrite Hx, Hy. destruct d; cbn; [right|right|left|left];
    repeat split; discriminate.
Qed.

Lemma axis_aligned_moving (s : state) :
  axis_aligned s -> exists d, moving d s.
Proof.
  unfold axis_aligned, moving, grid.
  intros [(Hx & Hy & Ha)|(Hx & Hy & Ha)].
  - destruct (Z.abs_spec (snake_dx s)) as [[_ E]|[_ E]].
    + exists Right. cbn. unfold grid. f_equal; lia.
    + exists Left. cbn. unfold grid. f_equal; lia.
  - destruct (Z.abs_spec (snake_dy s)) as [[_ E]|[_ E]].
    + exists Down. cbn. unfold grid. f_equal; lia.
    + exists Up. cbn. unfold grid. f_equal; lia.
Qed.

Lemma axis_aligned_same_velocity (s s' : state) :
  snake_dx s' = snake_dx s -> snake_dy s' = snake_dy s ->
  axis_aligned s -> axis_aligned s'.
Proof. unfold axis_aligned. intros -> ->. auto. Qed.

Lemma axis_aligned_initial : axis_aligned initial.
Proof. apply (moving_axis_aligned Right). reflexivity. Qed.

Lemma axis_aligned_resetGame (s : state) : axis_aligned (resetGame random s).
Proof.
  apply (moving_axis_aligned Right). rewrite resetGame_fields. reflexivity.
Qed.

Lemma axis_aligned_eatApple (s : state) :
  axis_aligned s -> axis_aligned (eatApple random s).
Proof.
  apply axis_aligned_same_velocity; rewrite eatApple_fields; reflexivity.
Qed.

Lemma axis_aligned_gameTick (s : state) :
  axis_aligned s -> axis_aligned (gameTick random s).
Proof.
  intros H. unfold gameTick. cbn zeta.
  apply forEachCell_preserves.
  - apply axis_aligned_eatApple.
  - intros s' _. apply axis_aligned_resetGame.
  - revert H. apply axis_aligned_same_velocity;
      pose proof (moveSnake_fields s) as E; cbn zeta in E; rewrite E;
      reflexivity.
Qed.

Lemma axis_aligned_gameLoop (s : state) :
  axis_aligned s -> axis_aligned (gameLoop random s).
Proof.
  intros H. unfold gameLoop. cbn zeta.
  match goal with |- context [if ?b then _ else _] => destruct b end.
  - exact H.
  - apply axis_aligned_gameTick. exact H.
Qed.

Lemma axis_aligned_handleKeyDown (e : KeyboardEvent) (s : state) :
  axis_aligned s -> axis_aligned (fst (handleKeyDown random e s)).
Proof.
  intros H. unfold handleKeyDown.
  repeat match goal with
         | |- context [if ?b then _ else _] => destruct b
         end; cbn [fst]; try exact H; try apply axis_aligned_resetGame.
  - apply (moving_axis_aligned Left). reflexivity.
  - apply (moving_axis_aligned Up). reflexivity.
  - apply (moving_axis_aligned Right). reflexivity.
  - apply (moving_axis_aligned Down). reflexivity.
Qed.

Lemma reachable_run (inputs : list input) (s : state) :
  reachable random s -> reachable random (run random inputs s).
Proof.
  revert s; induction inputs as [|i rest IH]; intros s H; [exact H|].
  cbn [run]. apply IH. constructor. exact H.
Qed.

(** C8. In every state the component can reach, exactly one of [dx], [dy]
    is non-zero and it is [grid] in absolute value, so the velocity is that
    of one of the four directions; the initial state has the property, and
    from a reachable state every key event, every reset and every frame
    lead to a state that has it. *)
Theorem C8_velocity_axis_aligned (s : state) :
  reachable random s ->
  axis_aligned s
  /\ (exists d, moving d s)
  /\ axis_aligned initial
  /\ (forall e, axis_aligned (fst (handleKeyDown random e s)))
  /\ axis_aligned (resetGame random s)
  /\ axis_aligned (gameLoop random s).
Proof.
  intros H.
  assert (Ha : axis_aligned s).
  { induction H as [|i s H IH].
    - apply axis_aligned_initial.
    - destruct i as [|e]; cbn [step].
      + apply axis_aligned_gameLoop, IH.
      + apply axis_aligned_handleKeyDown, IH. }
  split; [exact Ha|].
  split; [apply axis_aligned_moving, Ha|].
  split; [apply axis_aligned_initial|].
  split; [intros e; apply axis_aligned_handleKeyDown, Ha|].
  split; [apply axis_aligned_resetGame | apply axis_aligned_gameLoop, Ha].
Qed.

(** C4. With the snake moving in direction [d], an arrow-key event that
    asks for direction [d'] (and is not at the same time the restart or
    the quit key) sets the direction to [d'] when [d'] is perpendicular to
    [d] and changes nothing otherwise; it has no other effect.  Left is
    not perpendicular to Right, Up and Down are. *)
Theorem C4_direction_change (d d' : direction) (e : KeyboardEvent) (s : state) :
  moving d s ->
  which e = arrowCode d' ->
  isRestartKey e = false ->
  isQuitKey e = false ->
  handleKeyDown random e s
    = (if perpendicular d d' then set_direction d' s else s, [])
  /\ moving (if perpendicular d d' then d' else d)
            (fst (handleKeyDown random e s))
  /\ perpendicular Right Left = false
  /\ perpendicular Right Up = true
  /\ perpendicular Right Down = true.
Proof.
  intros Hd Hw Hr Hq.
  assert (E : handleKeyDown random e s
              = (if perpendicular d d' then set_direction d' s else s, [])).
  { unfold handleKeyDown. rewrite Hw, Hr, Hq.
    unfold moving in Hd.
    assert (Hx : snake_dx s = fst (velocity d)) by (rewrite <- Hd; reflexivity).
    assert (Hy : snake_dy s = snd (velocity d)) by (rewrite <- Hd; reflexivity).
    rewrite Hx, Hy. destruct d, d'; reflexivity. }
  rewrite E. repeat split; try reflexivity.
  cbn [fst]. destruct (perpendicular d d'); [|exact Hd].
  destruct d'; reflexivity.
Qed.

End SnakeVelocity.

Lemma C8_velocity_axis_aligned_witness :
  let s := Snake.run Snake.reversalDraws Snake.reversalInputs Snake.initial in
  Snake.axis_aligned s
  /\ (exists d, Snake.moving d s)
  /\ Snake.axis_aligned Snake.initial
  /\ (forall e, Snake.axis_aligned
                  (fst (Snake.handleKeyDown Snake.reversalDraws e s)))
  /\ Snake.axis_aligned (Snake.resetGame Snake.reversalDraws s)
  /\ Snake.axis_aligned (Snake.gameLoop Snake.reversalDraws s).
Proof.
  apply (C8_velocity_axis_aligned Snake.reversalDraws
           (Snake.run Snake.reversalDraws Snake.reversalInputs Snake.initial)).
  apply reachable_run. apply Snake.reach_initial.
Defined.

Lemma C4_direction_change_witness :
  Snake.handleKeyDown Snake.zeroDraws (Snake.arrowKey Snake.Left) Snake.initial
    = (Snake.initial, [])
  /\ Snake.handleKeyDown Snake.zeroDraws (Snake.arrowKey Snake.Up) Snake.initial
     = (Snake.set_direction Snake.Up Snake.initial, [])
  /\ Snake.handleKeyDown Snake.zeroDraws (Snake.arrowKey Snake.Down)
       Snake.initial
     = (Snake.set_direction Snake.Down Snake.initial, []).
Proof.
  split; [|split].
  - apply (proj1 (C4_direction_change Snake.zeroDraws Snake.Right Snake.Left
                    (Snake.arrowKey Snake.Left) Snake.initial
                    eq_refl eq_refl eq_refl eq_refl)).
  - apply (proj1 (C4_direction_change Snake.zeroDraws Snake.Right Snake.Up
                    (Snake.arrowKey Snake.Up) Snake.initial
                    eq_refl eq_refl eq_refl eq_refl)).
  - apply (proj1 (C4_direction_change Snake.zeroDraws Snake.Right Snake.Down
                    (Snake.arrowKey Snake.Down) Snake.initial
                    eq_refl eq_refl eq_refl eq_refl)).
Defined.

(** ** The Snake simulation: ticks without apple and without collision *)

(** C2, as the code has it. A fresh snake (at (160, 160), no cell recorded,
    target length 4) moving in direction [d] has, after [k] ticks in which
    no cell lay on the apple and no two cells coincided, [min(k, 4)] cells;
    its position is the start plus [k] steps of the velocity, each axis
    taken modulo the board extent; and from the first tick on that position
    is the head [cells[0]]. *)
Theorem C2_quiet_ticks_from_fresh_snake
    (random : nat -> Q) (d : Snake.direction) (k : nat) (s : Snake.state) :
  Snake.freshSnake s ->
  Snake.moving d s ->
  Snake.quietRun random k s = true ->
  let s' := iter k (Snake.gameTick random) s in
  js_length (Snake.snake_cells s') = Z.min (Z.of_nat k) 4
  /\ Snake.snake_x s'
     = (160 + Z.of_nat k * fst (Snake.velocity d)) mod Snake.canvas_width
  /\ Snake.snake_y s'
     = (160 + Z.of_nat k * snd (Snake.velocity d)) mod Snake.canvas_height
  /\ match k with
     | O => Snake.snake_cells s' = []
     | S _ => hd_error (Snake.snake_cells s')
              = Some (Snake.mkCell (Snake.snake_x s') (Snake.snake_y s'))
     end.
Proof.
  intros Hf Hd Hq s'.
  destruct (afterQuiet_run random d k s Hf Hd Hq)
    as (_ & _ & Hx & Hy & Hl & Hh).
  repeat split; assumption.
Qed.

Lemma C2_quiet_ticks_from_fresh_snake_witness :
  let s' := iter 20 (Snake.gameTick Snake.zeroDraws) Snake.initial in
  js_length (Snake.snake_cells s') = 4
  /\ Snake.snake_x s' = 80
  /\ Snake.snake_y s' = 160
  /\ hd_error (Snake.snake_cells s') = Some (Snake.mkCell 80 160).
Proof.
  pose proof (C2_quiet_ticks_from_fresh_snake Snake.zeroDraws Snake.Right 20
                Snake.initial) as H.
  cbn zeta in H.
  destruct H as (Hl & Hx & Hy & Hh).
  - repeat split; reflexivity.
  - reflexivity.
  - vm_compute. reflexivity.
  - cbn zeta. rewrite Hh, Hx, Hy, Hl. repeat split; reflexivity.
Defined.

(** C2 as the design document words it does not hold: the cell array
    starts empty, so after one undisturbed tick it has 1 cell, not
    [min(1 + 1, 4) = 2]. *)
Lemma C2_length_counterexample :
  ~ (forall k : nat,
       Snake.quietRun Snake.zeroDraws k Snake.initial = true ->
       js_length (Snake.snake_cells
                    (iter k (Snake.gameTick Snake.zeroDraws) Snake.initial))
       = Z.min (Z.of_nat k + 1) (Snake.snake_maxCells Snake.initial)).
Proof.
  intros H. specialize (H 1%nat eq_refl). vm_compute in H. discriminate.
Qed.

(** ** The Snake simulation: eating the apple *)

Section SnakeApple.

Import Snake.

Variable random : nat -> Q.

Lemma moveSnake_keeps (s : state) :
  apple_x (moveSnake s) = apple_x s
  /\ apple_y (moveSnake s) = apple_y s
  /\ score (moveSnake s) = score s
  /\ snake_maxCells (moveSnake s) = snake_maxCells s
  /\ draws (moveSnake s) = draws s.
Proof.
  pose proof (moveSnake_fields s) as E. cbn zeta in E. rewrite E.
  repeat split.
Qed.

Lemma onApple_moveSnake (c : cell) (s : state) :
  onApple c (moveSnake s) = onApple c s.
Proof.
  unfold onApple. destruct (moveSnake_keeps s) as (-> & -> & _).
  reflexivity.
Qed.

Lemma appleHit_occupied (s : state) (l : list cell) :
  existsb (fun c => onApple c s) l = occupied (apple_x s) (apple_y s) l.
Proof. reflexivity. Qed.

(** The first callback of the [forEach] when the head lies on the apple
    and equals no later cell: the apple is eaten, nothing else happens. *)
Lemma visitCell_head_eats (s : state) (h : cell) (rest : list cell) :
  snake_cells s = h :: rest ->
  onApple h s = true ->
  existsb (cell_eqb h) rest = false ->
  visitCell random h 0 s = eatApple random s.
Proof.
  intros Hc Ha Hn. rewrite visitCell_spec, Ha. cbn zeta.
  rewrite eatApple_fields. cbn [snake_cells]. rewrite Hc. cbn [skipn].
  rewrite Hn. reflexivity.
Qed.

Lemma appleInBoard_eatApple (s : state) :
  unit_interval random -> appleInBoard (eatApple random s).
Proof.
  intros H. unfold appleInBoard. rewrite eatApple_fields.
  apply drawn_cell_in_board, H.
Qed.

Lemma appleInBoard_resetGame (s : state) :
  unit_interval random -> appleInBoard (resetGame random s).
Proof.
  intros H. unfold appleInBoard. rewrite resetGame_fields.
  apply drawn_cell_in_board, H.
Qed.

(** Whatever the draws, a tick whose head lies on the apple ends with the
    apple on a cell of the board. *)
Lemma head_on_apple_relocates_in_board
    (s : state) (h : cell) (rest : list cell) :
  unit_interval random ->
  snake_cells (moveSnake s) = h :: rest ->
  onApple h s = true ->
  appleInBoard (gameTick random s).
Proof.
  intros Hu Hc Ha. unfold gameTick. cbn zeta. rewrite Hc.
  cbn [forEachCell].
  apply forEachCell_preserves.
  - intros; apply appleInBoard_eatApple, Hu.
  - intros; apply appleInBoard_resetGame, Hu.
  - rewrite visitCell_spec, onApple_moveSnake, Ha. cbn zeta.
    match goal with |- context [if ?b then _ else _] => destruct b end.
    + apply appleInBoard_resetGame, Hu.
    + apply appleInBoard_eatApple, Hu.
Qed.

(** The tick in which the head eats the apple, no two cells coincide, and
    the drawn cell is free of the body behind the head. *)
Lemma gameTick_head_eats (s : state) (h : cell) (rest : list cell) :
  snake_cells (moveSnake s) = h :: rest ->
  onApple h s = true ->
  selfCollides (h :: rest) = false ->
  occupied (drawIndex random (draws s) * grid)
           (drawIndex random (S (draws s)) * grid) rest = false ->
  gameTick random s = eatApple random (moveSnake s).
Proof.
  intros Hc Ha Hs Hfree.
  apply selfCollides_cons_false in Hs. destruct Hs as [Hh Hs].
  destruct (moveSnake_keeps s) as (_ & _ & _ & _ & Hd).
  unfold gameTick. cbn zeta. rewrite Hc. cbn [forEachCell].
  rewrite (visitCell_head_eats _ h rest Hc) by
    (rewrite ?onApple_moveSnake; assumption).
  apply (forEachCell_quiet random rest [h]).
  - rewrite eatApple_fields. cbn [snake_cells]. exact Hc.
  - rewrite appleHit_occupied, eatApple_fields. cbn [apple_x apple_y].
    rewrite Hd. exact Hfree.
  - exact Hs.
Qed.

End SnakeApple.

Lemma binary64_dyadic (m e : Z) :
  (Z.abs m <? 2 ^ 53) = true ->
  ((-1074 <=? e) && (e <=? 971)) = true ->
  binary64 (inject_Z m * Qpow2 e).
Proof.
  intros Hm He. exists m, e. apply Z.ltb_lt in Hm.
  apply andb_prop in He. destruct He as [H1 H2].
  apply Z.leb_le in H1, H2.
  split; [exact Hm|]. split; [split; assumption|]. apply Qeq_refl.
Qed.

Lemma binary64_proper (u v : Q) : (u == v)%Q -> binary64 v -> binary64 u.
Proof.
  intros E (m & e & Hm & He & Hv). exists m, e.
  split; [exact Hm|]. split; [exact He|]. rewrite E. exact Hv.
Qed.

Lemma unit_interval_zeroDraws : Snake.unit_interval Snake.zeroDraws.
Proof.
  intros n. split; [|split; [apply Qle_refl | reflexivity]].
  apply (binary64_proper _ (inject_Z 0 * Qpow2 0)); [reflexivity|].
  apply binary64_dyadic; reflexivity.
Qed.

Lemma unit_interval_appleDraws : Snake.unit_interval Snake.appleDraws.
Proof.
  intros [|[|n]]; split; [| |  | |  |];
    try (split; [unfold Qle; cbn; lia | reflexivity]).
  - apply (binary64_proper _ (inject_Z 25 * Qpow2 (-5))); [reflexivity|].
    apply binary64_dyadic; reflexivity.
  - apply (binary64_proper _ (inject_Z 13 * Qpow2 (-4))); [reflexivity|].
    apply binary64_dyadic; reflexivity.
  - apply (binary64_proper _ (inject_Z 0 * Qpow2 0)); [reflexivity|].
    apply binary64_dyadic; reflexivity.
Qed.

Lemma unit_interval_reversalDraws : Snake.unit_interval Snake.reversalDraws.
Proof.
  intros [|[|n]]; split; [| |  | |  |];
    try (split; [unfold Qle; cbn; lia | reflexivity]).
  - apply (binary64_proper _ (inject_Z 1 * Qpow2 (-1))); [reflexivity|].
    apply binary64_dyadic; reflexivity.
  - apply (binary64_proper _ (inject_Z 13 * Qpow2 (-5))); [reflexivity|].
    apply binary64_dyadic; reflexivity.
  - apply (binary64_proper _ (inject_Z 0 * Qpow2 0)); [reflexivity|].
    apply binary64_dyadic; reflexivity.
Qed.

(** The product is rounded before [Math.floor]: for the binary64 number
    0.6799999999999999 the exact product with 25 lies below 17, the
    rounded one is 17. *)
Lemma drawIndex_rounds_before_floor :
  Qfloor ((3062447746611937 # 4503599627370496) * inject_Z 25) = 16
  /\ Snake.drawIndex (fun _ => 3062447746611937 # 4503599627370496) 0 = 17.
Proof. split; vm_compute; reflexivity. Qed.

(** With the draws 0.6799999999999999 and 13/16 the apple that the head
    eats at (320, 320) lands on the tail cell (272, 320) and is eaten
    again: the drawn cell is occupied, and the tick adds 20 and 2. *)
Lemma rounded_draw_lands_on_tail :
  let s := Snake.run Snake.roundedDraws Snake.appleInputs Snake.initial in
  Snake.occupied
    (Snake.drawIndex Snake.roundedDraws (Snake.draws s) * Snake.grid)
    (Snake.drawIndex Snake.roundedDraws (S (Snake.draws s)) * Snake.grid)
    [Snake.mkCell 304 320; Snake.mkCell 288 320; Snake.mkCell 272 320]
  = true
  /\ Snake.score (Snake.gameTick Snake.roundedDraws s) = Snake.score s + 20
  /\ Snake.snake_maxCells (Snake.gameTick Snake.roundedDraws s)
     = Snake.snake_maxCells s + 2.
Proof. vm_compute. repeat split. Qed.

(** C3, as the code has it. When the head's new cell lies on the apple, no
    two cells of the snake coincide in that tick, and the cell drawn for
    the apple is not under the body behind the head, the tick adds exactly
    10 to the score and exactly 1 to the target length, and the apple ends
    on the drawn cell [(i * grid, j * grid)] with [0 <= i, j < 25]. *)
Theorem C3_head_eats_apple
    (random : nat -> Q) (s : Snake.state)
    (h : Snake.cell) (rest : list Snake.cell) :
  Snake.unit_interval random ->
  Snake.snake_cells (Snake.moveSnake s) = h :: rest ->
  Snake.onApple h s = true ->
  Snake.selfCollides (h :: rest) = false ->
  Snake.occupied (Snake.drawIndex random (Snake.draws s) * Snake.grid)
                 (Snake.drawIndex random (S (Snake.draws s)) * Snake.grid)
                 rest = false ->
  let s' := Snake.gameTick random s in
  Snake.score s' = Snake.score s + 10
  /\ Snake.snake_maxCells s' = Snake.snake_maxCells s + 1
  /\ Snake.apple_x s' = Snake.drawIndex random (Snake.draws s) * Snake.grid
  /\ Snake.apple_y s'
     = Snake.drawIndex random (S (Snake.draws s)) * Snake.grid
  /\ Snake.in_board (Snake.apple_x s') (Snake.apple_y s').
Proof.
  intros Hu Hc Ha Hs Hfree s'.
  assert (Hin : Snake.in_board (Snake.apple_x s') (Snake.apple_y s'))
    by exact (head_on_apple_relocates_in_board random s h rest Hu Hc Ha).
  revert Hin. unfold s'.
  rewrite (gameTick_head_eats random s h rest Hc Ha Hs Hfree).
  rewrite eatApple_fields.
  destruct (moveSnake_keeps s) as (_ & _ & -> & -> & ->).
  cbn [Snake.score Snake.snake_maxCells Snake.apple_x Snake.apple_y].
  auto.
Qed.

Lemma C3_head_eats_apple_witness :
  let s := Snake.run Snake.zeroDraws Snake.appleInputs Snake.initial in
  let s' := Snake.gameTick Snake.zeroDraws s in
  Snake.score s' = Snake.score s + 10
  /\ Snake.snake_maxCells s' = Snake.snake_maxCells s + 1
  /\ Snake.apple_x s'
     = Snake.drawIndex Snake.zeroDraws (Snake.draws s) * Snake.grid
  /\ Snake.apple_y s'
     = Snake.drawIndex Snake.zeroDraws (S (Snake.draws s)) * Snake.grid
  /\ Snake.in_board (Snake.apple_x s') (Snake.apple_y s').
Proof.
  apply (C3_head_eats_apple Snake.zeroDraws
           (Snake.run Snake.zeroDraws Snake.appleInputs Snake.initial)
           (Snake.mkCell 320 320)
           [Snake.mkCell 304 320; Snake.mkCell 288 320; Snake.mkCell 272 320]).
  - exact unit_interval_zeroDraws.
  - vm_compute. reflexivity.
  - vm_compute. reflexivity.
  - vm_compute. reflexivity.
  - vm_compute. reflexivity.
Defined.

(** C3 as the design document words it does not hold for every draw: when
    the cell drawn for the apple is the one right behind the head, the
    same [forEach] reaches that cell and eats again, and the tick adds 20
    to the score and 2 to the target length. *)
Lemma C3_double_eat_counterexample :
  ~ (forall (random : nat -> Q) (s : Snake.state)
            (h : Snake.cell) (rest : list Snake.cell),
       Snake.unit_interval random ->
       Snake.snake_cells (Snake.moveSnake s) = h :: rest ->
       Snake.onApple h s = true ->
       Snake.score (Snake.gameTick random s) = Snake.score s + 10
       /\ Snake.snake_maxCells (Snake.gameTick random s)
          = Snake.snake_maxCells s + 1
       /\ Snake.in_board (Snake.apple_x (Snake.gameTick random s))
                         (Snake.apple_y (Snake.gameTick random s))).
Proof.
  intros H.
  destruct (H Snake.appleDraws
              (Snake.run Snake.appleDraws Snake.appleInputs Snake.initial)
              (Snake.mkCell 320 320)
              [Snake.mkCell 304 320; Snake.mkCell 288 320;
               Snake.mkCell 272 320]
              unit_interval_appleDraws eq_refl eq_refl) as [Hs _].
  vm_compute in Hs. discriminate.
Qed.

(** ** The Snake simulation: self-collision *)

Section SnakeCollision.

Import Snake.

Variable random : nat -> Q.

Lemma resetShape_resetGame (s : state) : resetShape 0 (resetGame random s).
Proof.
  unfold resetShape. rewrite resetGame_fields.
  cbn [snake_cells snake_x snake_y snake_dx snake_dy score snake_maxCells].
  repeat split; lia.
Qed.

Lemma resetShape_eatApple (m : Z) (s : state) :
  resetShape m s -> resetShape (m + 1) (eatApple random s).
Proof.
  unfold resetShape. rewrite eatApple_fields.
  cbn [snake_cells snake_x snake_y snake_dx snake_dy score snake_maxCells].
  intros (Hc & Hx & Hy & Hdx & Hdy & Hm & Hs & Hl).
  repeat split; try assumption; lia.
Qed.

(** Once the game has been reset, the rest of the [forEach] can still eat
    apples - the cells it visits are those of the old array - but it can
    neither reset again nor bring cells back. *)
Lemma visitCell_resetShape (c : cell) (i : nat) (m : Z) (s : state) :
  resetShape m s ->
  exists m', m <= m' <= m + 1 /\ resetShape m' (visitCell random c i s).
Proof.
  intros H. rewrite visitCell_spec. cbn zeta.
  destruct (onApple c s).
  - pose proof (resetShape_eatApple m s H) as H'.
    destruct H' as (Hc & H').
    rewrite Hc. rewrite skipn_nil. cbn [existsb].
    exists (m + 1). split; [lia|]. split; assumption.
  - destruct H as (Hc & H).
    rewrite Hc. rewrite skipn_nil. cbn [existsb].
    exists m. split; [lia|]. split; assumption.
Qed.

Lemma forEachCell_resetShape (arr : list cell) (i : nat) (m : Z) (s : state) :
  resetShape m s ->
  exists m', m <= m' <= m + js_length arr
             /\ resetShape m' (forEachCell random arr i s).
Proof.
  revert i m s; induction arr as [|c rest IH]; intros i m s H.
  - exists m. split; [unfold js_length; cbn; lia | exact H].
  - cbn [forEachCell].
    destruct (visitCell_resetShape c i m s H) as (m1 & Hm1 & H1).
    destruct (IH (S i) m1 _ H1) as (m2 & Hm2 & H2).
    exists m2. split; [|exact H2].
    unfold js_length in *. cbn [length]. lia.
Qed.

(** When two of the cells still to be visited coincide, the [forEach] ends
    in a reset snake - with [m] apples eaten after the reset. *)
Lemma forEachCell_collision (arr pre : list cell) (s : state) :
  snake_cells s = pre ++ arr ->
  selfCollides arr = true ->
  exists m, 0 <= m <= js_length arr
            /\ resetShape m (forEachCell random arr (length pre) s).
Proof.
  revert pre s; induction arr as [|c rest IH]; intros pre s Hc Hs;
    [discriminate|].
  cbn [forEachCell]. rewrite visitCell_spec. cbn zeta.
  set (s1 := if onApple c s then eatApple random s else s).
  assert (Hc1 : snake_cells s1 = pre ++ c :: rest).
  { unfold s1. destruct (onApple c s); [|exact Hc].
    rewrite eatApple_fields. exact Hc. }
  rewrite Hc1, skipn_past_prefix.
  cbn [selfCollides] in Hs.
  destruct (existsb (cell_eqb c) rest) eqn:E.
  - destruct (forEachCell_resetShape rest (S (length pre)) 0
                (resetGame random s1) (resetShape_resetGame s1))
      as (m & Hm & H).
    exists m. split; [|exact H].
    unfold js_length in *. cbn [length]. lia.
  - cbn [orb] in Hs.
    replace (S (length pre)) with (length (pre ++ [c]))
      by (rewrite length_app; cbn; lia).
    destruct (IH (pre ++ [c]) s1) as (m & Hm & H);
      [rewrite <- app_assoc; exact Hc1 | exact Hs |].
    exists m. split; [|exact H].
    unfold js_length in *. cbn [length]. lia.
Qed.

(** What does hold after a tick with a self-collision: the cells are
    empty, position and velocity are the initial ones, and score and
    target length are those of a reset followed by [m] apples. *)
Lemma collision_tick_resets (s : state) :
  selfCollides (snake_cells (moveSnake s)) = true ->
  exists m, 0 <= m <= js_length (snake_cells (moveSnake s))
            /\ resetShape m (gameTick random s).
Proof.
  intros H. unfold gameTick. cbn zeta.
  apply (forEachCell_collision _ []); [reflexivity | exact H].
Qed.

(** The restart key does reset completely. *)
Lemma restart_key_resets (e : KeyboardEvent) (s : state) :
  which e <> 37 -> which e <> 38 -> which e <> 39 -> which e <> 40 ->
  isRestartKey e = true ->
  resetShape 0 (fst (handleKeyDown random e s)).
Proof.
  intros H1 H2 H3 H4 Hr. unfold handleKeyDown.
  apply Z.eqb_neq in H1, H2, H3, H4. rewrite H1, H2, H3, H4, Hr.
  cbn [andb fst]. apply resetShape_resetGame.
Qed.

End SnakeCollision.

(** C1, at the input where the code departs from it. After two ticks to
    the right, Up and Left are pressed before the third tick, which moves
    the head back onto the cell it left: cells 0 and 2 coincide and the
    game is reset.  The [forEach] then goes on over the old array; the
    apple was drawn onto old cell 1, so it is eaten, and the tick ends
    with score 10 and target length 5 instead of 0 and 4.  The restart
    key, from the same state, leaves score 0 and target length 4. *)
Theorem C1_collision_tick_keeps_eating :
  let before :=
    Snake.run Snake.reversalDraws Snake.reversalInputs Snake.initial in
  let after := Snake.gameLoop Snake.reversalDraws before in
  Snake.unit_interval Snake.reversalDraws
  /\ Snake.reachable Snake.reversalDraws before
  /\ Snake.snake_cells (Snake.moveSnake before)
    = [Snake.mkCell 176 160; Snake.mkCell 192 160; Snake.mkCell 176 160]
  /\ Snake.selfCollides (Snake.snake_cells (Snake.moveSnake before)) = true
  /\ Snake.snake_cells after = []
  /\ Snake.score after = 10
  /\ Snake.snake_maxCells after = 5
  /\ Snake.score
       (fst (Snake.handleKeyDown Snake.reversalDraws Snake.restartKey before))
     = 0
  /\ Snake.snake_maxCells
       (fst (Snake.handleKeyDown Snake.reversalDraws Snake.restartKey before))
     = 4.
Proof.
  split; [exact unit_interval_reversalDraws|].
  split; [apply reachable_run, Snake.reach_initial|].
  vm_compute. repeat split.
Qed.

(** ** The selection menu: lookup, item management and display *)

Section MenuItems.

Import ArrowSelection.

Lemma find_app_split {A : Type} (f : A -> bool) (l1 l2 : list A) :
  find f (l1 ++ l2) =
  match find f l1 with Some x => Some x | None => find f l2 end.
Proof.
  induction l1 as [|a l1 IH]; [reflexivity|].
  cbn. destruct (f a); [reflexivity | exact IH].
Qed.

Lemma find_filter_other (i j : string) (l : list SelectableItem) :
  find (fun item => String.eqb (id item) j)
       (filter (fun item => negb (String.eqb (id item) i)) l)
  = if String.eqb j i then None
    else find (fun item => String.eqb (id item) j) l.
Proof.
  induction l as [|a l IH]; cbn; [destruct (String.eqb j i); reflexivity|].
  destruct (String.eqb_spec (id a) i) as [Hi|Hi]; cbn.
  - rewrite IH. destruct (String.eqb_spec j i) as [Hj|Hj]; [reflexivity|].
    destruct (String.eqb_spec (id a) j); [congruence | reflexivity].
  - destruct (String.eqb_spec (id a) j) as [Hj|Hj].
    + destruct (String.eqb_spec j i); [congruence | reflexivity].
    + exact IH.
Qed.

Lemma filter_all_kept {A : Type} (f : A -> bool) (l : list A) :
  (forall x, In x l -> f x = true) -> filter f l = l.
Proof.
  induction l as [|a l IH]; intros H; [reflexivity|].
  cbn. rewrite (H a (or_introl eq_refl)). f_equal.
  apply IH. intros x Hx. apply H. right. exact Hx.
Qed.

Lemma filter_absent_id (i : string) (l : list SelectableItem) :
  find (fun item => String.eqb (id item) i) l = None ->
  filter (fun item => negb (String.eqb (id item) i)) l = l.
Proof.
  intros H. apply filter_all_kept. intros x Hx.
  rewrite (find_none _ _ H x Hx). reflexivity.
Qed.

Lemma js_findIndex_lower {A : Type} (p : A -> bool) (l : list A) :
  -1 <= js_findIndex p l.
Proof.
  induction l as [|a l IH]; cbn; [lia|].
  destruct (p a); [lia|].
  destruct (Z.eqb_spec (js_findIndex p l) (-1)); lia.
Qed.

Lemma js_findIndex_none {A : Type} (p : A -> bool) (l : list A) :
  find p l = None -> js_findIndex p l = -1.
Proof.
  induction l as [|a l IH]; cbn; [reflexivity|].
  destruct (p a); [discriminate|]. intros H. rewrite (IH H). reflexivity.
Qed.

Lemma js_findIndex_some {A : Type} (p : A -> bool) (l : list A) (a : A) :
  find p l = Some a ->
  exists pre post,
    l = pre ++ a :: post /\ find p pre = None /\ p a = true
    /\ js_findIndex p l = Z.of_nat (length pre).
Proof.
  induction l as [|b l IH]; cbn; [discriminate|].
  destruct (p b) eqn:E.
  - intros [= ->]. exists [], l. repeat split. exact E.
  - intros H. destruct (IH H) as (pre & post & -> & Hn & Hp & Hi).
    exists (b :: pre), post. cbn. rewrite E, Hi.
    repeat split; auto.
    destruct (Z.eqb_spec (Z.of_nat (length pre)) (-1)); lia.
Qed.

Lemma replace_nth_middle {A : Type} (pre post : list A) (a x : A) :
  replace_nth (length pre) x (pre ++ a :: post) = pre ++ x :: post.
Proof. induction pre as [|b pre IH]; cbn; [reflexivity | rewrite IH; reflexivity]. Qed.

Lemma js_index_middle {A : Type} (pre post : list A) (a : A) :
  js_index (pre ++ a :: post) (Z.of_nat (length pre)) = Some a.
Proof.
  unfold js_index. destruct (Z.ltb_spec (Z.of_nat (length pre)) 0); [lia|].
  rewrite Nat2Z.id, nth_error_app2, Nat.sub_diag by lia. reflexivity.
Qed.

(** [updateItem] on an id that some item carries: the first such item is
    replaced by the merged object, in place. *)
Lemma updateItem_found (i : string) (u : ItemUpdates) (m : t)
    (old : SelectableItem) :
  getItemById i m = Some old ->
  exists pre post,
    items m = pre ++ old :: post
    /\ find (fun item => String.eqb (id item) i) pre = None
    /\ id old = i
    /\ updateItem i u m = with_items (pre ++ spread old u :: post) m.
Proof.
  unfold getItemById. intros H.
  destruct (js_findIndex_some _ _ _ H) as (pre & post & Hl & Hn & Hp & Hi).
  exists pre, post. repeat split; auto.
  - apply String.eqb_eq, Hp.
  - unfold updateItem. cbn zeta. rewrite Hi.
    destruct (Z.eqb_spec (Z.of_nat (length pre)) (-1)); [lia|]. cbn [negb].
    rewrite Hl, js_index_middle, Nat2Z.id, replace_nth_middle. reflexivity.
Qed.

Lemma updateItem_absent (i : string) (u : ItemUpdates) (m : t) :
  getItemById i m = None -> updateItem i u m = m.
Proof.
  unfold getItemById, updateItem. intros H. cbn zeta.
  rewrite (js_findIndex_none _ _ H). reflexivity.
Qed.

Lemma with_items_same (m : t) : with_items (items m) m = m.
Proof. destruct m; reflexivity. Qed.

Lemma isMarked_itemLine (item : SelectableItem) (b : bool) :
  isMarked (itemLine item b) = b.
Proof. destruct b; reflexivity. Qed.

Lemma map_isMarked_mapi (c : Z) (l : list SelectableItem) (start : nat) :
  map isMarked
      (mapi_from (fun item index => itemLine item (Z.of_nat index =? c))
                 start l)
  = map (fun index => Z.of_nat index =? c) (seq start (length l)).
Proof.
  revert start; induction l as [|a l IH]; intros start; [reflexivity|].
  cbn [mapi_from map seq length]. rewrite isMarked_itemLine, IH. reflexivity.
Qed.

Lemma count_index_hits (c : Z) (start n : nat) :
  length (filter (fun index => Z.of_nat index =? c) (seq start n))
  = if (Z.of_nat start <=? c) && (c <? Z.of_nat (start + n))
    then 1%nat else 0%nat.
Proof.
  revert start; induction n as [|n IH]; intros start.
  - cbn [seq filter length].
    destruct (Z.leb_spec (Z.of_nat start) c), (Z.ltb_spec c (Z.of_nat (start + 0)));
      cbn; lia.
  - cbn [seq filter].
    destruct (Z.eqb_spec (Z.of_nat start) c) as [E|E]; cbn [length];
      rewrite IH;
      destruct (Z.leb_spec (Z.of_nat (S start)) c),
               (Z.leb_spec (Z.of_nat start) c),
               (Z.ltb_spec c (Z.of_nat (S start + n))),
               (Z.ltb_spec c (Z.of_nat (start + S n))); cbn; lia.
Qed.

Lemma filter_map_length {A B : Type} (f : A -> B) (p : B -> bool) (l : list A) :
  length (filter p (map f l)) = length (filter (fun a => p (f a)) l).
Proof.
  induction l as [|a l IH]; [reflexivity|].
  cbn. destruct (p (f a)); cbn; rewrite IH; reflexivity.
Qed.

End MenuItems.

Section MenuMoreFacts.

Import ArrowSelection.

Lemma moveUp_closed_form (m : t) :
  in_range m ->
  moveUp m = with_index ((currentIndex m - 1) mod js_length (items m)) m.
Proof.
  unfold in_range, moveUp. intros H. f_equal.
  destruct (Z.gtb_spec (currentIndex m) 0) as [Hgt|Hle].
  - rewrite Z.mod_small; lia.
  - replace (currentIndex m - 1) with (-1) by lia.
    apply Z.mod_unique with (q := -1); lia.
Qed.

Lemma moveUp_iter_in_range (j : nat) (m : t) :
  in_range m ->
  iter j moveUp m =
  with_index ((currentIndex m - Z.of_nat j) mod js_length (items m)) m.
Proof.
  intros H. induction j as [|j IH].
  - cbn [iter]. rewrite Z.sub_0_r, Z.mod_small by exact H.
    symmetry. apply with_index_same.
  - rewrite iter_succ_r, IH.
    assert (Hr : in_range (with_index
               ((currentIndex m - Z.of_nat j) mod js_length (items m)) m)).
    { unfold in_range in *. cbn. apply Z.mod_pos_bound. lia. }
    rewrite (moveUp_closed_form _ Hr). cbn. unfold with_index. cbn. f_equal.
    rewrite Zminus_mod_idemp_l. f_equal. lia.
Qed.

Lemma cursor_ok_updateItem (i : string) (u : ItemUpdates) (m : t) :
  cursor_ok m -> cursor_ok (updateItem i u m).
Proof.
  intros H. destruct (getItemById i m) as [old|] eqn:E.
  - destruct (updateItem_found i u m old E) as (pre & post & Hl & _ & _ & ->).
    destruct H as [H|[Hi _]]; [|rewrite Hl in Hi; destruct pre; discriminate].
    left. unfold in_range, js_length in *. cbn. rewrite Hl in H.
    rewrite length_app in *. cbn [length] in *. exact H.
  - rewrite (updateItem_absent i u m E). exact H.
Qed.

End MenuMoreFacts.

Section MenuExtras.

Import ArrowSelection.

(** X1. While the cursor names an item, [moveUp()] and [moveDown()] undo
    each other, in either order. *)
Theorem X1_moveUp_moveDown_inverse (m : t) :
  in_range m ->
  moveUp (moveDown m) = m /\ moveDown (moveUp m) = m.
Proof.
  intros H.
  pose proof (moveDown_keeps_range m H) as Hd.
  destruct (moveUp_in_range m H) as (_ & _ & Hu).
  rewrite (moveUp_closed_form _ Hd), (moveDown_in_range _ Hu).
  rewrite (moveDown_in_range _ H), (moveUp_closed_form _ H).
  unfold in_range in H. destruct m as [its c f g ttl ins].
  unfold with_index. cbn in *.
  rewrite Zminus_mod_idemp_l, Zplus_mod_idemp_l.
  replace (c + 1 - 1) with c by lia. replace (c - 1 + 1) with c by lia.
  rewrite Z.mod_small by lia. split; reflexivity.
Qed.

Lemma X1_moveUp_moveDown_inverse_witness :
  moveUp (moveDown gamesMenu) = gamesMenu
  /\ moveDown (moveUp gamesMenu) = gamesMenu.
Proof.
  apply (X1_moveUp_moveDown_inverse gamesMenu).
  unfold in_range. vm_compute. split; [discriminate | reflexivity].
Defined.

(** X2. While the cursor names an item, [items.length] calls of
    [moveUp()] bring the menu back to where it was. *)
Theorem X2_moveUp_full_cycle (m : t) :
  in_range m ->
  iter (length (items m)) moveUp m = m.
Proof.
  intros H. rewrite (moveUp_iter_in_range _ m H).
  fold (js_length (items m)). unfold in_range in H.
  replace (currentIndex m - js_length (items m))
    with (currentIndex m + (-1) * js_length (items m)) by lia.
  rewrite Z.mod_add by lia. rewrite Z.mod_small by lia.
  apply with_index_same.
Qed.

Lemma X2_moveUp_full_cycle_witness :
  iter (length (items gamesMenu)) moveUp gamesMenu = gamesMenu.
Proof.
  apply (X2_moveUp_full_cycle gamesMenu).
  unfold in_range. vm_compute. split; [discriminate | reflexivity].
Defined.

(** X3. The cursor invariant - the cursor names an item, or the list is
    empty and the cursor is 0 - holds after construction and is kept by
    [moveDown], [addItem], [removeItem], [updateItem], [select] and
    [exit]; [moveUp] keeps it unless the list is empty. *)
Theorem X3_cursor_invariant (config : ArrowSelectionConfig) (m : t) :
  cursor_ok m ->
  cursor_ok (create config)
  /\ cursor_ok (moveDown m)
  /\ (items m = [] \/ cursor_ok (moveUp m))
  /\ (forall item, cursor_ok (addItem item m))
  /\ (forall i, cursor_ok (removeItem i m))
  /\ (forall i u, cursor_ok (updateItem i u m))
  /\ cursor_ok (fst (select m))
  /\ cursor_ok (fst (exit m)).
Proof.
  intros H.
  split; [apply cursor_ok_create|].
  split; [apply cursor_ok_moveDown, H|].
  split.
  { destruct (items m) eqn:E; [left; reflexivity|].
    right. apply cursor_ok_moveUp; [rewrite E; discriminate | exact H]. }
  split; [intros; apply cursor_ok_addItem, H|].
  split; [intros; apply cursor_ok_removeItem, H|].
  split; [intros; apply cursor_ok_updateItem, H|].
  unfold select, exit.
  destruct (js_index (items m) (currentIndex m)), (onExit m);
    split; exact H.
Qed.

Lemma X3_cursor_invariant_witness :
  cursor_ok (create (mkConfig [] 0%nat None "Games" "Use the arrow keys"))
  /\ cursor_ok (moveDown gamesMenu)
  /\ (items gamesMenu = [] \/ cursor_ok (moveUp gamesMenu))
  /\ (forall item, cursor_ok (addItem item gamesMenu))
  /\ (forall i, cursor_ok (removeItem i gamesMenu))
  /\ (forall i u, cursor_ok (updateItem i u gamesMenu))
  /\ cursor_ok (fst (select gamesMenu))
  /\ cursor_ok (fst (exit gamesMenu)).
Proof.
  apply (X3_cursor_invariant
           (mkConfig [] 0%nat None "Games" "Use the arrow keys") gamesMenu).
  left. unfold in_range. vm_compute. split; [discriminate | reflexivity].
Defined.

(** X4. Lookup after [addItem]: an id that the menu already had still
    finds its first, older item; otherwise the new item is found under its
    own id and nothing under any other id. *)
Theorem X4_getItemById_addItem (i : string) (item : SelectableItem) (m : t) :
  getItemById i (addItem item m) =
  match getItemById i m with
  | Some older => Some older
  | None => if String.eqb (id item) i then Some item else None
  end.
Proof.
  unfold getItemById, addItem. cbn [items with_items].
  rewrite find_app_split. reflexivity.
Qed.

(** X5. Lookup after [removeItem(i)]: nothing is found under [i] any more,
    however many items carried it, and every other id finds what it found
    before. *)
Theorem X5_getItemById_removeItem (i j : string) (m : t) :
  getItemById j (removeItem i m) =
  if String.eqb j i then None else getItemById j m.
Proof.
  unfold getItemById, removeItem. cbn zeta.
  match goal with |- context [if ?b then _ else _] => destruct b end;
    cbn [items with_items with_index]; apply find_filter_other.
Qed.

(** X6. Removing an id that no item carries changes nothing, provided the
    cursor invariant holds. *)
Theorem X6_removeItem_absent (i : string) (m : t) :
  getItemById i m = None ->
  cursor_ok m ->
  removeItem i m = m.
Proof.
  unfold getItemById. intros Hn Hc. unfold removeItem. cbn zeta.
  cbn [items with_items currentIndex]. rewrite (filter_absent_id i _ Hn).
  rewrite with_items_same.
  destruct Hc as [H|[Hi Hz]].
  - unfold in_range in H.
    destruct (Z.geb_spec (currentIndex m) (js_length (items m))); [lia|].
    reflexivity.
  - rewrite Hi, Hz. cbn. rewrite <- Hz. apply with_index_same.
Qed.

Lemma X6_removeItem_absent_witness :
  removeItem "chess" gamesMenu = gamesMenu.
Proof.
  apply (X6_removeItem_absent "chess" gamesMenu).
  - reflexivity.
  - left. unfold in_range. vm_compute. split; [discriminate | reflexivity].
Defined.

(** X7. Adding an item under an id the menu does not have and removing
    that id again gives back the menu as it was, provided the cursor
    invariant holds. *)
Theorem X7_addItem_removeItem (item : SelectableItem) (m : t) :
  getItemById (id item) m = None ->
  cursor_ok m ->
  removeItem (id item) (addItem item m) = m.
Proof.
  unfold getItemById. intros Hn Hc. unfold removeItem, addItem. cbn zeta.
  cbn [items with_items currentIndex].
  rewrite filter_app, (filter_absent_id _ _ Hn). cbn [filter].
  rewrite String.eqb_refl. cbn [negb]. rewrite app_nil_r.
  destruct Hc as [H|[Hi Hz]].
  - unfold in_range in H.
    destruct (Z.geb_spec (currentIndex m) (js_length (items m))); [lia|].
    destruct m; reflexivity.
  - rewrite Hi, Hz. cbn. destruct m; cbn in *; subst; reflexivity.
Qed.

Lemma X7_addItem_removeItem_witness :
  removeItem (id (mkItem "chess" "Chess" None None))
             (addItem (mkItem "chess" "Chess" None None) gamesMenu)
  = gamesMenu.
Proof.
  apply (X7_addItem_removeItem (mkItem "chess" "Chess" None None) gamesMenu).
  - reflexivity.
  - left. unfold in_range. vm_compute. split; [discriminate | reflexivity].
Defined.

End MenuExtras.

Section MenuUpdateAndDisplay.

Import ArrowSelection.

Lemma nth_error_middle_other {A : Type} (pre post : list A) (a x : A) (k : nat) :
  k <> length pre ->
  nth_error (pre ++ x :: post) k = nth_error (pre ++ a :: post) k.
Proof.
  intros H. destruct (Nat.lt_ge_cases k (length pre)) as [Hlt|Hge].
  - rewrite !nth_error_app1 by lia. reflexivity.
  - rewrite !nth_error_app2 by lia.
    destruct (k - length pre)%nat eqn:E; [lia | reflexivity].
Qed.

(** X8. Lookup after [updateItem(i, updates)] when [updates] has no [id]
    property: under [i] the merged object of the first item that carried
    [i] is found (nothing when no item did), and every other id finds what
    it found before. *)
Theorem X8_getItemById_updateItem
    (i j : string) (u : ItemUpdates) (m : t) :
  upd_id u = None ->
  getItemById j (updateItem i u m) =
  if String.eqb j i
  then option_map (fun old => spread old u) (getItemById i m)
  else getItemById j m.
Proof.
  intros Hu. destruct (getItemById i m) as [old|] eqn:E.
  - destruct (updateItem_found i u m old E)
      as (pre & post & Hl & Hn & Hi & ->).
    assert (Hx : id (spread old u) = i) by (cbn; rewrite Hu; exact Hi).
    unfold getItemById. cbn [items with_items option_map].
    rewrite Hl, !find_app_split. cbn [find]. rewrite Hx, Hi.
    destruct (String.eqb_spec j i) as [->|Hj].
    + rewrite Hn, String.eqb_refl. reflexivity.
    + destruct (String.eqb_spec i j); [congruence | reflexivity].
  - rewrite (updateItem_absent i u m E). cbn [option_map].
    destruct (String.eqb_spec j i) as [->|Hj]; [exact E | reflexivity].
Qed.

Lemma X8_getItemById_updateItem_witness :
  getItemById "snake"
    (updateItem "snake" (mkUpdates None (Some "Snake II"%string) None None)
                gamesMenu)
  = Some (mkItem "snake" "Snake II" (Some "Classic Snake Game"%string) None).
Proof.
  apply (X8_getItemById_updateItem "snake" "snake"
           (mkUpdates None (Some "Snake II"%string) None None) gamesMenu).
  reflexivity.
Defined.

(** X9. [updateItem] touches one position at most: every position other
    than the one [findIndex] returns holds the item it held, the number of
    items is the same and so is the cursor. *)
Theorem X9_updateItem_frame
    (i : string) (u : ItemUpdates) (m : t) (k : nat) :
  Z.of_nat k <> js_findIndex (fun item => String.eqb (id item) i) (items m) ->
  nth_error (items (updateItem i u m)) k = nth_error (items m) k
  /\ length (items (updateItem i u m)) = length (items m)
  /\ currentIndex (updateItem i u m) = currentIndex m.
Proof.
  intros Hk. destruct (getItemById i m) as [old|] eqn:E.
  - destruct (updateItem_found i u m old E)
      as (pre & post & Hl & Hn & Hi & ->).
    unfold getItemById in E.
    destruct (js_findIndex_some _ _ _ E) as (pre' & post' & Hl' & Hn' & _ & Hx).
    assert (Hpre : length pre' = length pre).
    { unfold updateItem in *. clear Hk.
      assert (Hi2 : js_findIndex (fun item => String.eqb (id item) i) (items m)
                    = Z.of_nat (length pre)).
      { rewrite Hl. clear Hl Hl' Hx E.
        induction pre as [|b pre IH]; cbn.
        - rewrite Hi, String.eqb_refl. reflexivity.
        - cbn in Hn. destruct (String.eqb (id b) i); [discriminate|].
          rewrite (IH Hn).
          destruct (Z.eqb_spec (Z.of_nat (length pre)) (-1)); lia. }
      lia. }
    cbn [items with_items currentIndex]. rewrite Hl.
    split; [apply nth_error_middle_other; lia|].
    split; [rewrite !length_app; reflexivity | reflexivity].
  - rewrite (updateItem_absent i u m E). repeat split.
Qed.

Lemma X9_updateItem_frame_witness :
  nth_error (items (updateItem "snake"
                      (mkUpdates None (Some "Snake II"%string) None None)
                      gamesMenu)) 1
  = nth_error (items gamesMenu) 1
  /\ length (items (updateItem "snake"
                      (mkUpdates None (Some "Snake II"%string) None None)
                      gamesMenu))
     = length (items gamesMenu)
  /\ currentIndex (updateItem "snake"
                     (mkUpdates None (Some "Snake II"%string) None None)
                     gamesMenu)
     = currentIndex gamesMenu.
Proof.
  apply (X9_updateItem_frame "snake"
           (mkUpdates None (Some "Snake II"%string) None None) gamesMenu 1).
  vm_compute. discriminate.
Defined.

(** X10. The menu text has one line per item, in item order, and the
    marker [>] sits on the line whose position equals the cursor and on no
    other: exactly one line is marked when the cursor names an item, none
    when it does not. *)
Theorem X10_display_marks_cursor_line (m : t) :
  length (itemLines m) = length (items m)
  /\ map isMarked (itemLines m)
     = map (fun index => Z.of_nat index =? currentIndex m)
           (seq 0 (length (items m)))
  /\ length (filter isMarked (itemLines m))
     = if in_rangeb m then 1%nat else 0%nat.
Proof.
  pose proof (map_isMarked_mapi (currentIndex m) (items m) 0) as Hm.
  fold (itemLines m) in Hm.
  split; [|split].
  - rewrite <- (length_map isMarked), Hm, length_map, length_seq. reflexivity.
  - exact Hm.
  - transitivity (length (filter (fun b : bool => b)
                            (map isMarked (itemLines m)))).
    { rewrite filter_map_length. reflexivity. }
    rewrite Hm, filter_map_length, count_index_hits.
    unfold in_rangeb, js_length. reflexivity.
Qed.

End MenuUpdateAndDisplay.

(** ** The Snake simulation: invariants of the reachable states *)

Section SnakeInvariants.

Import Snake.

Variable random : nat -> Q.

Lemma wrap_on_grid (i v : Z) :
  0 <= i < 25 ->
  v = - grid \/ v = 0 \/ v = grid ->
  exists i', 0 <= i' < 25 /\ wrap 400 (i * grid + v) = i' * grid.
Proof.
  unfold wrap, grid. intros Hi [-> | [-> | ->]].
  - destruct (Z.ltb_spec (i * 16 + - (16)) 0).
    + exists 24. lia.
    + destruct (Z.geb_spec (i * 16 + - (16)) 400); [lia|]. exists (i - 1). lia.
  - destruct (Z.ltb_spec (i * 16 + 0) 0); [lia|].
    destruct (Z.geb_spec (i * 16 + 0) 400); [lia|]. exists i. lia.
  - destruct (Z.ltb_spec (i * 16 + 16) 0); [lia|].
    destruct (Z.geb_spec (i * 16 + 16) 400).
    + exists 0. lia.
    + exists (i + 1). lia.
Qed.

Lemma axis_aligned_components (s : state) :
  axis_aligned s ->
  (snake_dx s = - grid \/ snake_dx s = 0 \/ snake_dx s = grid)
  /\ (snake_dy s = - grid \/ snake_dy s = 0 \/ snake_dy s = grid).
Proof.
  intros H. destruct (axis_aligned_moving s H) as [d Hd].
  unfold moving in Hd.
  assert (Hx : snake_dx s = fst (velocity d)) by (rewrite <- Hd; reflexivity).
  assert (Hy : snake_dy s = snd (velocity d)) by (rewrite <- Hd; reflexivity).
  rewrite Hx, Hy. apply velocity_cases.
Qed.

Lemma Forall_removelast {A : Type} (P : A -> Prop) (l : list A) :
  Forall P l -> Forall P (removelast l).
Proof.
  induction 1 as [|a l Ha Hl IH]; [constructor|].
  cbn. destruct l; [constructor|]. constructor; assumption.
Qed.

Lemma gameInvariant_initial : gameInvariant initial.
Proof.
  unfold gameInvariant. cbn.
  split; [lia|]. split; [apply axis_aligned_initial|].
  split; [exists 10, 10; unfold grid; lia|].
  split; [constructor|].
  repeat split; try lia. left. reflexivity.
Qed.

Lemma gameInvariant_resetGame (s : state) :
  0 <= count s < 6 -> gameInvariant (resetGame random s).
Proof.
  intros Hc. unfold gameInvariant.
  split; [rewrite resetGame_fields; exact Hc|].
  split; [apply axis_aligned_resetGame|].
  rewrite resetGame_fields.
  cbn [snake_x snake_y snake_cells snake_maxCells score].
  split; [exists 10, 10; unfold grid; lia|].
  split; [constructor|].
  unfold js_length. cbn. repeat split; try lia. left. reflexivity.
Qed.

Lemma gameInvariant_eatApple (s : state) :
  gameInvariant s -> gameInvariant (eatApple random s).
Proof.
  intros (Hc & Ha & Hp & Hf & Hm & Hs & Hl & Hh). unfold gameInvariant.
  split; [rewrite eatApple_fields; exact Hc|].
  split; [apply axis_aligned_eatApple, Ha|].
  rewrite eatApple_fields.
  cbn [snake_x snake_y snake_cells snake_maxCells score].
  repeat split; try assumption; lia.
Qed.

Lemma gameInvariant_moveSnake (s : state) :
  gameInvariant s -> gameInvariant (moveSnake s).
Proof.
  intros (Hc & Ha & Hp & Hf & Hm & Hs & Hl & Hh).
  destruct (axis_aligned_components s Ha) as [Vx Vy].
  destruct Hp as (i & j & Hi & Hj & Hx & Hy).
  assert (Hp' : in_board (wrap canvas_width (snake_x s + snake_dx s))
                         (wrap canvas_height (snake_y s + snake_dy s))).
  { unfold canvas_width, canvas_height. rewrite Hx, Hy.
    destruct (wrap_on_grid i _ Hi Vx) as (i' & Hi' & ->).
    destruct (wrap_on_grid j _ Hj Vy) as (j' & Hj' & ->).
    exists i', j'. auto. }
  assert (Ha' : axis_aligned (moveSnake s)).
  { revert Ha. apply axis_aligned_same_velocity;
      pose proof (moveSnake_fields s) as E; cbn zeta in E; rewrite E;
      reflexivity. }
  unfold gameInvariant. split; [|split; [exact Ha'|]];
    pose proof (moveSnake_fields s) as E; cbn zeta in E; rewrite E; clear E;
    cbn [count snake_x snake_y snake_cells snake_maxCells score];
    [exact Hc|].
  split; [exact Hp'|].
  unfold js_length in *. cbn [length].
  destruct (Z.gtb_spec (Z.of_nat (S (length (snake_cells s))))
              (snake_maxCells s)) as [Hgt|Hle].
  - split.
    { apply Forall_removelast. constructor; assumption. }
    split; [exact Hm|]. split; [exact Hs|].
    split; [rewrite length_removelast_cons; lia|].
    right. apply hd_removelast_cons.
    destruct (snake_cells s); [cbn in Hgt; lia | discriminate].
  - split; [constructor; assumption|].
    split; [exact Hm|]. split; [exact Hs|].
    split; [cbn [length]; lia|]. right. reflexivity.
Qed.

Lemma gameInvariant_gameTick (s : state) :
  gameInvariant s -> gameInvariant (gameTick random s).
Proof.
  intros H. unfold gameTick. cbn zeta.
  apply forEachCell_preserves.
  - apply gameInvariant_eatApple.
  - intros s' Hs'. apply gameInvariant_resetGame. apply Hs'.
  - apply gameInvariant_moveSnake, H.
Qed.

Lemma gameInvariant_set_count (c : Z) (s : state) :
  0 <= c < 6 -> gameInvariant s -> gameInvariant (set_count c s).
Proof.
  intros Hc (_ & Ha & Hrest). split; [exact Hc|]. split; [|exact Hrest].
  revert Ha. apply axis_aligned_same_velocity; reflexivity.
Qed.

Lemma gameInvariant_gameLoop (s : state) :
  gameInvariant s -> gameInvariant (gameLoop random s).
Proof.
  intros H. assert (Hc : 0 <= count s < 6) by apply H.
  destruct (Z.lt_ge_cases (count s + 1) 6) as [Hlt|Hge].
  - rewrite gameLoop_waits by exact Hlt.
    apply gameInvariant_set_count; [lia | exact H].
  - rewrite gameLoop_fires by lia.
    apply gameInvariant_gameTick, gameInvariant_set_count; [lia | exact H].
Qed.

Lemma gameInvariant_velocity (vx vy : Z) (s : state) :
  axis_aligned (set_dy vy (set_dx vx s)) ->
  gameInvariant s -> gameInvariant (set_dy vy (set_dx vx s)).
Proof.
  intros Ha (Hc & _ & Hrest). split; [exact Hc|]. split; [exact Ha|].
  exact Hrest.
Qed.

Lemma gameInvariant_handleKeyDown (e : KeyboardEvent) (s : state) :
  gameInvariant s -> gameInvariant (fst (handleKeyDown random e s)).
Proof.
  intros H. assert (Hc : 0 <= count s < 6) by apply H.
  unfold handleKeyDown.
  repeat match goal with
         | |- context [if ?b then _ else _] => destruct b
         end; cbn [fst]; try exact H;
    try (apply gameInvariant_resetGame; exact Hc).
  - apply (gameInvariant_velocity (- grid) 0); [|exact H].
    apply (moving_axis_aligned Left). reflexivity.
  - destruct H as (Hc' & _ & Hrest). split; [exact Hc'|].
    split; [apply (moving_axis_aligned Up); reflexivity | exact Hrest].
  - apply (gameInvariant_velocity grid 0); [|exact H].
    apply (moving_axis_aligned Right). reflexivity.
  - destruct H as (Hc' & _ & Hrest). split; [exact Hc'|].
    split; [apply (moving_axis_aligned Down); reflexivity | exact Hrest].
Qed.

Lemma gameInvariant_reachable (s : state) :
  reachable random s -> gameInvariant s.
Proof.
  induction 1 as [|i s H IH].
  - apply gameInvariant_initial.
  - destruct i as [|e]; cbn [step].
    + apply gameInvariant_gameLoop, IH.
    + apply gameInvariant_handleKeyDown, IH.
Qed.

Lemma appleInBoard_same_apple (s s' : state) :
  apple_x s' = apple_x s -> apple_y s' = apple_y s ->
  appleInBoard s -> appleInBoard s'.
Proof. unfold appleInBoard. intros -> ->. auto. Qed.

Lemma appleInBoard_reachable (s : state) :
  unit_interval random -> reachable random s -> appleInBoard s.
Proof.
  intros Hu. induction 1 as [|i s H IH].
  - exists 20, 20. unfold grid. cbn. lia.
  - destruct i as [|e]; cbn [step].
    + unfold gameLoop. cbn zeta.
      match goal with |- context [if ?b then _ else _] => destruct b end;
        [exact IH|].
      unfold gameTick. cbn zeta. apply forEachCell_preserves.
      * intros; apply appleInBoard_eatApple, Hu.
      * intros; apply appleInBoard_resetGame, Hu.
      * revert IH. apply appleInBoard_same_apple;
          pose proof (moveSnake_fields (set_count 0 (set_count (count s + 1) s)))
            as E; cbn zeta in E; rewrite E; reflexivity.
    + unfold handleKeyDown.
      repeat match goal with
             | |- context [if ?b then _ else _] => destruct b
             end; cbn [fst]; try exact IH;
        apply appleInBoard_resetGame, Hu.
Qed.

End SnakeInvariants.

(** ** The Snake simulation: further properties *)

Section SnakeExtras.

Import Snake.

Variable random : nat -> Q.

(** X11. Whatever keys are pressed and whatever frames pass, as long as
    [Math.random()] stays in [[0, 1)]: the snake's position, every cell of
    its body and the apple lie on cells of the 25 by 25 board, and the
    head of the array, when there is one, is the current position. *)
Theorem X11_everything_stays_on_board (s : state) :
  unit_interval random ->
  reachable random s ->
  in_board (snake_x s) (snake_y s)
  /\ Forall cellOnBoard (snake_cells s)
  /\ appleInBoard s
  /\ (snake_cells s = []
      \/ hd_error (snake_cells s) = Some (mkCell (snake_x s) (snake_y s))).
Proof.
  intros Hu Hr.
  destruct (gameInvariant_reachable random s Hr)
    as (_ & _ & Hp & Hf & _ & _ & _ & Hh).
  repeat split; try assumption.
  apply (appleInBoard_reachable random s Hu Hr).
Qed.

(** X12. In every reachable state the score is ten times the growth of
    the target length beyond 4, the target length is at least 4, the cell
    array is never longer than the target length, and the frame counter
    is between 0 and 5. *)
Theorem X12_score_tracks_length (s : state) :
  reachable random s ->
  score s = 10 * (snake_maxCells s - 4)
  /\ 4 <= snake_maxCells s
  /\ js_length (snake_cells s) <= snake_maxCells s
  /\ 0 <= count s < 6.
Proof.
  intros Hr.
  destruct (gameInvariant_reachable random s Hr)
    as (Hc & _ & _ & _ & Hm & Hs & Hl & _).
  repeat split; try assumption; apply Hc.
Qed.

(** X13. The simulation runs on every sixth animation frame: starting
    with the counter at 0, five calls of [gameLoop] change nothing but the
    counter, and the sixth is exactly one simulation step with the counter
    back at 0. *)
Theorem X13_six_frames_one_tick (s : state) :
  count s = 0 ->
  iter 5 (gameLoop random) s = set_count 5 s
  /\ iter 6 (gameLoop random) s = gameTick random s.
Proof.
  intros H. destruct s as [c x y dx dy cs mc ax ay sc dr]. cbn in H. subst c.
  split.
  - cbn [iter].
    repeat (rewrite gameLoop_waits by (cbn; lia); cbn [count set_count]).
    reflexivity.
  - cbn [iter].
    repeat (rewrite gameLoop_waits by (cbn; lia); cbn [count set_count]).
    rewrite gameLoop_fires by (cbn; lia). reflexivity.
Qed.

(** X14. The guard against backtracking looks at one key event at a time:
    with the snake moving in direction [d], a perpendicular arrow key
    followed by the arrow key opposite to [d], both before the next tick,
    are both accepted and leave the snake moving in the opposite
    direction, its position and cells untouched. *)
Theorem X14_two_keys_reverse
    (d d1 : direction) (e1 e2 : KeyboardEvent) (s : state) :
  moving d s ->
  perpendicular d d1 = true ->
  which e1 = arrowCode d1 ->
  which e2 = arrowCode (opposite d) ->
  let s2 := fst (handleKeyDown random e2 (fst (handleKeyDown random e1 s))) in
  moving (opposite d) s2
  /\ s2 = set_direction (opposite d) s
  /\ snake_cells s2 = snake_cells s
  /\ snake_x s2 = snake_x s /\ snake_y s2 = snake_y s.
Proof.
  intros Hd Hp H1 H2. unfold moving in Hd.
  assert (Hx : snake_dx s = fst (velocity d)) by (rewrite <- Hd; reflexivity).
  assert (Hy : snake_dy s = snd (velocity d)) by (rewrite <- Hd; reflexivity).
  assert (E : fst (handleKeyDown random e2 (fst (handleKeyDown random e1 s)))
              = set_direction (opposite d) s).
  { unfold handleKeyDown. rewrite H1, Hx, Hy.
    destruct d, d1; try discriminate Hp; cbn [arrowCode opposite] in *;
      cbn; rewrite H2; cbn; destruct s; reflexivity. }
  cbn zeta. rewrite E.
  split; [destruct d; reflexivity|]. repeat split.
Qed.

(** X15. A tick in which two cells of the snake coincide always ends with
    the cell array empty and with position and velocity as at the start
    of the game; score and target length are those of a reset followed by
    [m] eaten apples, [m] being at most the number of cells. *)
Theorem X15_collision_tick_shape (s : state) :
  selfCollides (snake_cells (moveSnake s)) = true ->
  exists m,
    0 <= m <= js_length (snake_cells (moveSnake s))
    /\ snake_cells (gameTick random s) = []
    /\ snake_x (gameTick random s) = 160
    /\ snake_y (gameTick random s) = 160
    /\ moving Right (gameTick random s)
    /\ score (gameTick random s) = 10 * m
    /\ snake_maxCells (gameTick random s) = 4 + m.
Proof.
  intros H.
  destruct (collision_tick_resets random s H)
    as (m & Hm & Hc & Hx & Hy & Hdx & Hdy & _ & Hs & Hl).
  exists m. unfold moving. rewrite Hdx, Hdy. repeat split; auto; apply Hm.
Qed.

(** X16. For every binary64 value of [Math.random()] in [[0, 1)],
    [getRandomInt(0, 25)] - the call that places the apple - returns an
    integer [r] with [0 <= r < 25], the rounding of the product included,
    and consumes exactly one random number. *)
Theorem X16_getRandomInt_range (s : state) :
  unit_interval random ->
  0 <= fst (getRandomInt random 0 25 s) < 25
  /\ draws (snd (getRandomInt random 0 25 s)) = S (draws s).
Proof.
  intros Hu. rewrite getRandomInt_0_25. cbn [fst snd draws set_draws].
  split; [apply (drawIndex_range random (draws s) Hu) | reflexivity].
Qed.

(** X17. A tick in which, after the move, no cell lies on the apple and
    no two cells coincide is the move alone: it calls [Math.random()] not
    once, and apple, score and target length stay as they were. *)
Theorem X17_quiet_tick_is_move (s : state) :
  quietTick s = true ->
  gameTick random s = moveSnake s
  /\ draws (gameTick random s) = draws s
  /\ score (gameTick random s) = score s
  /\ snake_maxCells (gameTick random s) = snake_maxCells s
  /\ apple_x (gameTick random s) = apple_x s
  /\ apple_y (gameTick random s) = apple_y s.
Proof.
  intros H. rewrite (gameTick_quiet random s H).
  destruct (moveSnake_keeps s) as (Hax & Hay & Hs & Hm & Hd).
  repeat split; assumption.
Qed.

End SnakeExtras.

Lemma X11_everything_stays_on_board_witness :
  let s := Snake.run Snake.appleDraws Snake.appleInputs Snake.initial in
  Snake.in_board (Snake.snake_x s) (Snake.snake_y s)
  /\ Forall Snake.cellOnBoard (Snake.snake_cells s)
  /\ Snake.appleInBoard s
  /\ (Snake.snake_cells s = []
      \/ hd_error (Snake.snake_cells s)
         = Some (Snake.mkCell (Snake.snake_x s) (Snake.snake_y s))).
Proof.
  apply (X11_everything_stays_on_board Snake.appleDraws
           (Snake.run Snake.appleDraws Snake.appleInputs Snake.initial)).
  - exact unit_interval_appleDraws.
  - apply reachable_run, Snake.reach_initial.
Defined.

Lemma X12_score_tracks_length_witness :
  let s := Snake.run Snake.appleDraws (Snake.appleInputs ++ [Snake.Frame])
             Snake.initial in
  Snake.score s = 10 * (Snake.snake_maxCells s - 4)
  /\ 4 <= Snake.snake_maxCells s
  /\ js_length (Snake.snake_cells s) <= Snake.snake_maxCells s
  /\ 0 <= Snake.count s < 6.
Proof.
  apply (X12_score_tracks_length Snake.appleDraws
           (Snake.run Snake.appleDraws (Snake.appleInputs ++ [Snake.Frame])
              Snake.initial)).
  apply reachable_run, Snake.reach_initial.
Defined.

Lemma X13_six_frames_one_tick_witness :
  iter 5 (Snake.gameLoop Snake.zeroDraws) Snake.initial
    = Snake.set_count 5 Snake.initial
  /\ iter 6 (Snake.gameLoop Snake.zeroDraws) Snake.initial
     = Snake.gameTick Snake.zeroDraws Snake.initial.
Proof.
  apply (X13_six_frames_one_tick Snake.zeroDraws Snake.initial).
  reflexivity.
Defined.

Lemma X14_two_keys_reverse_witness :
  let s2 := fst (Snake.handleKeyDown Snake.zeroDraws
                   (Snake.arrowKey Snake.Left)
                   (fst (Snake.handleKeyDown Snake.zeroDraws
                           (Snake.arrowKey Snake.Up) Snake.initial))) in
  Snake.moving Snake.Left s2
  /\ s2 = Snake.set_direction Snake.Left Snake.initial
  /\ Snake.snake_cells s2 = Snake.snake_cells Snake.initial
  /\ Snake.snake_x s2 = Snake.snake_x Snake.initial
  /\ Snake.snake_y s2 = Snake.snake_y Snake.initial.
Proof.
  apply (X14_two_keys_reverse Snake.zeroDraws Snake.Right Snake.Up
           (Snake.arrowKey Snake.Up) (Snake.arrowKey Snake.Left)
           Snake.initial); reflexivity.
Defined.

Lemma X15_collision_tick_shape_witness :
  let s := Snake.run Snake.reversalDraws Snake.reversalInputs Snake.initial in
  exists m,
    0 <= m <= js_length (Snake.snake_cells (Snake.moveSnake s))
    /\ Snake.snake_cells (Snake.gameTick Snake.reversalDraws s) = []
    /\ Snake.snake_x (Snake.gameTick Snake.reversalDraws s) = 160
    /\ Snake.snake_y (Snake.gameTick Snake.reversalDraws s) = 160
    /\ Snake.moving Snake.Right (Snake.gameTick Snake.reversalDraws s)
    /\ Snake.score (Snake.gameTick Snake.reversalDraws s) = 10 * m
    /\ Snake.snake_maxCells (Snake.gameTick Snake.reversalDraws s) = 4 + m.
Proof.
  apply (X15_collision_tick_shape Snake.reversalDraws
           (Snake.run Snake.reversalDraws Snake.reversalInputs Snake.initial)).
  vm_compute. reflexivity.
Defined.

Lemma X16_getRandomInt_range_witness :
  0 <= fst (Snake.getRandomInt Snake.appleDraws 0 25 Snake.initial) < 25
  /\ Snake.draws (snd (Snake.getRandomInt Snake.appleDraws 0 25 Snake.initial))
     = S (Snake.draws Snake.initial).
Proof.
  apply (X16_getRandomInt_range Snake.appleDraws Snake.initial).
  exact unit_interval_appleDraws.
Defined.

Lemma X17_quiet_tick_is_move_witness :
  Snake.gameTick Snake.appleDraws Snake.initial = Snake.moveSnake Snake.initial
  /\ Snake.draws (Snake.gameTick Snake.appleDraws Snake.initial)
     = Snake.draws Snake.initial
  /\ Snake.score (Snake.gameTick Snake.appleDraws Snake.initial)
     = Snake.score Snake.initial
  /\ Snake.snake_maxCells (Snake.gameTick Snake.appleDraws Snake.initial)
     = Snake.snake_maxCells Snake.initial
  /\ Snake.apple_x (Snake.gameTick Snake.appleDraws Snake.initial)
     = Snake.apple_x Snake.initial
  /\ Snake.apple_y (Snake.gameTick Snake.appleDraws Snake.initial)
     = Snake.apple_y Snake.initial.
Proof.
  apply (X17_quiet_tick_is_move Snake.appleDraws Snake.initial).
  reflexivity.
Defined.

(** ** The command line's history keys *)

Section HistoryKeys.

Import ConsoleHelpers.

Lemma js_index_in_range {A : Type} (l : list A) (i : Z) :
  0 <= i < js_length l -> exists a, js_index l i = Some a.
Proof.
  unfold js_index, js_length. intros H.
  destruct (Z.ltb_spec i 0); [lia|].
  destruct (nth_error l (Z.to_nat i)) as [a|] eqn:E; [exists a; reflexivity|].
  apply nth_error_None in E. lia.
Qed.

Lemma handleArrowUp_from_fresh (k : nat) (n : navigation) :
  historyIndex n = -1 ->
  (0 < length (commandHistory n))%nat ->
  (0 < k)%nat ->
  iter k handleArrowUp n =
  let i := Z.max 0 (js_length (commandHistory n) - Z.of_nat k) in
  {| commandHistory := commandHistory n;
     historyIndex := i;
     inputText := js_index (commandHistory n) i |}.
Proof.
  intros Hi Hl Hk. induction k as [|k IH]; [lia|].
  rewrite iter_succ_r. destruct k as [|k].
  - cbn [iter]. unfold handleArrowUp, js_length in *. rewrite Hi. cbn zeta.
    destruct (Z.eqb_spec (Z.of_nat (length (commandHistory n))) 0); [lia|].
    cbn [Z.eqb]. replace (Z.max 0 (Z.of_nat (length (commandHistory n)) - Z.of_nat 1))
      with (Z.of_nat (length (commandHistory n)) - 1) by lia.
    reflexivity.
  - rewrite IH by lia. cbn zeta. unfold handleArrowUp, js_length in *.
    cbn [commandHistory historyIndex].
    destruct (Z.eqb_spec (Z.of_nat (length (commandHistory n))) 0); [lia|].
    set (len := Z.of_nat (length (commandHistory n))) in *.
    destruct (Z.eqb_spec (Z.max 0 (len - Z.of_nat (S k))) (-1)); [lia|].
    destruct (Z.gtb_spec (Z.max 0 (len - Z.of_nat (S k))) 0).
    + replace (Z.max 0 (len - Z.of_nat (S (S k))))
        with (Z.max 0 (len - Z.of_nat (S k)) - 1) by lia.
      reflexivity.
    + replace (Z.max 0 (len - Z.of_nat (S (S k))))
        with (Z.max 0 (len - Z.of_nat (S k))) by lia.
      reflexivity.
Qed.

(** X18. The history index is always [-1] or the position of an entered
    command: [handleArrowUp], [handleArrowDown] and the entry of a command
    - whether [executeCommand] returns or throws - keep that, and while it
    holds the text the arrow keys put into the input field is never
    [undefined]. *)
Theorem X18_history_index_invariant
    (n : navigation) (returned : bool) (command : string) :
  index_ok n ->
  index_ok (handleArrowUp n)
  /\ index_ok (handleArrowDown n)
  /\ index_ok (commandEntered returned command n)
  /\ ((commandHistory n = [] /\ handleArrowUp n = n)
      \/ exists t, inputText (handleArrowUp n) = Some t)
  /\ ((commandHistory n = [] /\ handleArrowDown n = n)
      \/ exists t, inputText (handleArrowDown n) = Some t).
Proof.
  unfold index_ok. intros H.
  assert (Hup : index_ok (handleArrowUp n)).
  { unfold index_ok, handleArrowUp.
    destruct (Z.eqb_spec (js_length (commandHistory n)) 0); [exact H|].
    cbn [commandHistory historyIndex].
    destruct (Z.eqb_spec (historyIndex n) (-1));
      [unfold js_length in *; lia|].
    destruct (Z.gtb_spec (historyIndex n) 0); lia. }
  assert (Hdown : index_ok (handleArrowDown n)).
  { unfold index_ok, handleArrowDown.
    destruct (Z.eqb_spec (js_length (commandHistory n)) 0); [exact H|].
    destruct (Z.ltb_spec (historyIndex n) (js_length (commandHistory n) - 1));
      cbn [commandHistory historyIndex]; lia. }
  split; [exact Hup|]. split; [exact Hdown|]. split.
  { unfold commandEntered. destruct returned; [|exact H].
    unfold js_length. cbn [commandHistory historyIndex].
    rewrite length_app. cbn [length]. lia. }
  split.
  - unfold index_ok in Hup. revert Hup. unfold handleArrowUp.
    destruct (Z.eqb_spec (js_length (commandHistory n)) 0) as [E|E].
    + intros _. left. split; [|reflexivity].
      unfold js_length in E. destruct (commandHistory n); [reflexivity|].
      cbn in E. lia.
    + cbn [commandHistory historyIndex inputText]. intros Hup.
      set (i := if historyIndex n =? -1 then _ else _) in *.
      assert (Hi : 0 <= i < js_length (commandHistory n)).
      { unfold i in *. destruct (Z.eqb_spec (historyIndex n) (-1));
          [unfold js_length in *; lia|].
        destruct (Z.gtb_spec (historyIndex n) 0); lia. }
      right. apply js_index_in_range, Hi.
  - unfold handleArrowDown.
    destruct (Z.eqb_spec (js_length (commandHistory n)) 0) as [E|E].
    + left. split; [|reflexivity].
      unfold js_length in E. destruct (commandHistory n); [reflexivity|].
      cbn in E. lia.
    + right.
      destruct (Z.ltb_spec (historyIndex n) (js_length (commandHistory n) - 1)).
      * cbn [inputText]. apply js_index_in_range. lia.
      * exists ""%string. reflexivity.
Qed.

Lemma X18_history_index_invariant_witness :
  index_ok (handleArrowUp threeCommands)
  /\ index_ok (handleArrowDown threeCommands)
  /\ index_ok (commandEntered true "about" threeCommands)
  /\ ((commandHistory threeCommands = []
       /\ handleArrowUp threeCommands = threeCommands)
      \/ exists t, inputText (handleArrowUp threeCommands) = Some t)
  /\ ((commandHistory threeCommands = []
       /\ handleArrowDown threeCommands = threeCommands)
      \/ exists t, inputText (handleArrowDown threeCommands) = Some t).
Proof.
  apply (X18_history_index_invariant threeCommands true "about").
  unfold index_ok. vm_compute. split; [discriminate | reflexivity].
Defined.

(** X19. With nothing recalled yet (index [-1]) and at least one command
    entered, [k >= 1] presses of the up arrow show the [k]-th newest
    command and stop at the oldest: the index is [max(0, length - k)] and
    the input field holds that command.  One press of the down arrow
    instead shows the oldest command. *)
Theorem X19_arrow_up_walks_back (k : nat) (n : navigation) :
  historyIndex n = -1 ->
  (0 < length (commandHistory n))%nat ->
  (0 < k)%nat ->
  historyIndex (iter k handleArrowUp n)
    = Z.max 0 (js_length (commandHistory n) - Z.of_nat k)
  /\ inputText (iter k handleArrowUp n)
     = js_index (commandHistory n)
                (Z.max 0 (js_length (commandHistory n) - Z.of_nat k))
  /\ historyIndex (handleArrowDown n) = 0
  /\ inputText (handleArrowDown n) = js_index (commandHistory n) 0.
Proof.
  intros Hi Hl Hk. rewrite (handleArrowUp_from_fresh k n Hi Hl Hk).
  cbn zeta. cbn [historyIndex inputText].
  split; [reflexivity|]. split; [reflexivity|].
  unfold handleArrowDown, js_length. rewrite Hi.
  destruct (Z.eqb_spec (Z.of_nat (length (commandHistory n))) 0); [lia|].
  destruct (Z.ltb_spec (-1) (Z.of_nat (length (commandHistory n)) - 1)); [|lia].
  split; reflexivity.
Qed.

Lemma X19_arrow_up_walks_back_witness :
  historyIndex (iter 2 handleArrowUp threeCommands) = 1
  /\ inputText (iter 2 handleArrowUp threeCommands) = Some "about"%string
  /\ historyIndex (handleArrowDown threeCommands) = 0
  /\ inputText (handleArrowDown threeCommands) = Some "help"%string.
Proof.
  apply (X19_arrow_up_walks_back 2 threeCommands).
  - reflexivity.
  - cbn. lia.
  - lia.
Defined.

(** X20. At the newest command the down arrow blanks the input field but
    leaves the history index where it is, so the next up arrow shows the
    command before the newest one, not the newest. *)
Theorem X20_arrow_down_at_end_keeps_index (n : navigation) :
  historyIndex n = js_length (commandHistory n) - 1 ->
  2 <= js_length (commandHistory n) ->
  inputText (handleArrowDown n) = Some ""%string
  /\ historyIndex (handleArrowDown n) = js_length (commandHistory n) - 1
  /\ historyIndex (handleArrowUp (handleArrowDown n))
     = js_length (commandHistory n) - 2
  /\ inputText (handleArrowUp (handleArrowDown n))
     = js_index (commandHistory n) (js_length (commandHistory n) - 2).
Proof.
  intros Hi Hl.
  assert (E : handleArrowDown n =
              {| commandHistory := commandHistory n;
                 historyIndex := js_length (commandHistory n) - 1;
                 inputText := Some ""%string |}).
  { unfold handleArrowDown. rewrite Hi.
    destruct (Z.eqb_spec (js_length (commandHistory n)) 0); [lia|].
    rewrite Z.ltb_irrefl. reflexivity. }
  rewrite E. cbn [inputText historyIndex].
  split; [reflexivity|]. split; [reflexivity|].
  unfold handleArrowUp. cbn [commandHistory historyIndex].
  destruct (Z.eqb_spec (js_length (commandHistory n)) 0); [lia|].
  destruct (Z.eqb_spec (js_length (commandHistory n) - 1) (-1)); [lia|].
  destruct (Z.gtb_spec (js_length (commandHistory n) - 1) 0); [|lia].
  cbn [historyIndex inputText].
  replace (js_length (commandHistory n) - 1 - 1)
    with (js_length (commandHistory n) - 2) by lia.
  split; reflexivity.
Qed.

Lemma X20_arrow_down_at_end_keeps_index_witness :
  let n := handleArrowUp threeCommands in
  inputText (handleArrowDown n) = Some ""%string
  /\ historyIndex (handleArrowDown n) = js_length (commandHistory n) - 1
  /\ historyIndex (handleArrowUp (handleArrowDown n))
     = js_length (commandHistory n) - 2
  /\ inputText (handleArrowUp (handleArrowDown n))
     = js_index (commandHistory n) (js_length (commandHistory n) - 2).
Proof.
  apply (X20_arrow_down_at_end_keeps_index (handleArrowUp threeCommands)).
  - reflexivity.
  - vm_compute. discriminate.
Defined.

End HistoryKeys.

(** ** Key dispatch *)

Section KeyDispatch.

Import KeyboardHandlers.

(** X21. For every key event and every mode, the document-level handler
    invokes at most one of the games callbacks, and none outside games
    mode; whenever it invokes one it has prevented the default action; a
    blocked developer-tools shortcut gets [preventDefault],
    [stopPropagation], [return false] and nothing else; and every shortcut
    the input-field handler blocks is blocked here too. *)
Theorem X21_global_dispatch (e : KeyEvent) (isGamesMode isPlayingGame : bool) :
  let calls := fst (handleGlobalKeyDown e isGamesMode isPlayingGame) in
  (length (filter isCallback calls) <= 1)%nat
  /\ filter isCallback (fst (handleGlobalKeyDown e false isPlayingGame)) = []
  /\ (filter isCallback calls = [] \/ In PreventDefault calls)
  /\ (isGloballyBlocked e = false
      \/ handleGlobalKeyDown e isGamesMode isPlayingGame
         = ([PreventDefault; StopPropagation], Some false))
  /\ (isBrowserConsoleShortcut e = false \/ isGloballyBlocked e = true).
Proof.
  cbn zeta. unfold handleGlobalKeyDown.
  assert (Hsub : isBrowserConsoleShortcut e = false
                 \/ isGloballyBlocked e = true).
  { unfold isBrowserConsoleShortcut, isGloballyBlocked.
    destruct (String.eqb (key e) "F12"), (ctrlKey e), (shiftKey e),
             (String.eqb (key e) "I"), (String.eqb (key e) "J"),
             (String.eqb (key e) "U"); cbn; auto. }
  destruct (isGloballyBlocked e).
  - cbn. repeat split; auto.
  - destruct isGamesMode, isPlayingGame, (isArrowKey e),
      (String.eqb (key e) "ArrowUp"), (String.eqb (key e) "ArrowDown"),
      (String.eqb (key e) "Enter"), (ctrlKey e), (String.eqb (key e) "c");
      cbn; repeat split; auto; try lia.
Qed.

(** X22. The input-field handler invokes at most one callback per event,
    always after [preventDefault] and [stopPropagation].  In games mode
    the callback can only be Ctrl+C, arrow up, arrow down or Enter - never
    tab completion; outside games mode only tab completion, arrow up or
    arrow down - never Enter or Ctrl+C. *)
Theorem X22_input_dispatch (e : KeyEvent) (isGamesMode : bool) :
  (handleKeyDown e isGamesMode = []
   \/ handleKeyDown e isGamesMode
      = [PreventDefault; StopPropagation]
        ++ filter isCallback (handleKeyDown e isGamesMode))
  /\ In (filter isCallback (handleKeyDown e true))
        [[]; [OnCtrlC]; [OnArrowUp]; [OnArrowDown]; [OnEnter]]
  /\ In (filter isCallback (handleKeyDown e false))
        [[]; [OnTabCompletion]; [OnArrowUp]; [OnArrowDown]].
Proof.
  unfold handleKeyDown.
  destruct (isBrowserConsoleShortcut e), isGamesMode, (ctrlKey e),
    (String.eqb (key e) "c"), (String.eqb (key e) "Tab"),
    (String.eqb (key e) "ArrowUp"), (String.eqb (key e) "ArrowDown"),
    (String.eqb (key e) "Enter"); cbn; repeat split; auto 10.
Qed.

End KeyDispatch.

(** ** The games menu in the console *)

Section GamesMenu.

Import ConsoleHelpers GameHelpers.

Lemma replaceLastOutput_nil (t : string) : replaceLastOutput t [] = [].
Proof. reflexivity. Qed.

Lemma replaceLastOutput_snoc (t : string) (pre : list HistoryItem)
    (x : HistoryItem) :
  replaceLastOutput t (pre ++ [x]) =
  if isOutput (type x) then pre ++ [mkHistoryItem output t] else pre ++ [x].
Proof.
  unfold replaceLastOutput, js_length. cbn zeta.
  rewrite length_app. cbn [length].
  destruct (Z.gtb_spec (Z.of_nat (length pre + 1)) 0); [|lia].
  replace (Z.of_nat (length pre + 1) - 1) with (Z.of_nat (length pre)) by lia.
  rewrite js_index_middle, Nat2Z.id, replace_nth_middle. reflexivity.
Qed.

Lemma list_nil_or_snoc {A : Type} (l : list A) :
  l = [] \/ exists pre x, l = pre ++ [x].
Proof.
  destruct l as [|a l]; [left; reflexivity|].
  right. exists (removelast (a :: l)), (last (a :: l) a).
  apply app_removelast_last. discriminate.
Qed.

Lemma replaceLastOutput_absorb (a b : string) (prev : list HistoryItem) :
  replaceLastOutput a (replaceLastOutput b prev) = replaceLastOutput a prev.
Proof.
  destruct (list_nil_or_snoc prev) as [->|(pre & x & ->)]; [reflexivity|].
  rewrite !replaceLastOutput_snoc.
  destruct x as [[|] c]; cbn [isOutput type];
    rewrite replaceLastOutput_snoc; reflexivity.
Qed.

(** X23. The refresh of the games display never changes the number of
    history entries, the type of any entry, or any entry but the last; it
    rewrites the last entry only when that is an output; and of two
    refreshes in a row only the second one shows. *)
Theorem X23_replaceLastOutput (a b : string) (prev : list HistoryItem) :
  length (replaceLastOutput a prev) = length prev
  /\ map type (replaceLastOutput a prev) = map type prev
  /\ removelast (replaceLastOutput a prev) = removelast prev
  /\ (replaceLastOutput a prev = prev
      \/ exists old, last prev (mkHistoryItem input "") = mkHistoryItem output old
                     /\ last (replaceLastOutput a prev) (mkHistoryItem input "")
                        = mkHistoryItem output a)
  /\ replaceLastOutput a (replaceLastOutput b prev) = replaceLastOutput a prev.
Proof.
  destruct (list_nil_or_snoc prev) as [->|(pre & x & ->)].
  - cbn. repeat split; auto.
  - rewrite !replaceLastOutput_snoc.
    destruct x as [[|] c]; cbn [isOutput type].
    + rewrite replaceLastOutput_snoc. cbn [isOutput type].
      repeat split; auto.
    + rewrite replaceLastOutput_snoc. cbn [isOutput type].
      rewrite !length_app, !map_app, !removelast_last, !last_last.
      cbn [length map type]. repeat split; auto.
      right. exists c. split; reflexivity.
Qed.

Lemma mapi_from_nth_error {A B : Type} (f : A -> nat -> B) (start k : nat)
    (l : list A) :
  nth_error (mapi_from f start l) k
  = option_map (fun a => f a (start + k)%nat) (nth_error l k).
Proof.
  revert start k; induction l as [|a l IH]; intros start [|k]; cbn;
    try reflexivity.
  - rewrite Nat.add_0_r. reflexivity.
  - rewrite IH. rewrite Nat.add_succ_r. reflexivity.
Qed.

Lemma moveUp_moveDown_cancel (m : ArrowSelection.t) :
  ArrowSelection.in_range m ->
  ArrowSelection.moveUp (ArrowSelection.moveDown m) = m.
Proof.
  intros H.
  rewrite (moveUp_closed_form _ (moveDown_keeps_range m H)).
  rewrite (moveDown_in_range _ H).
  unfold ArrowSelection.in_range in H. destruct m as [its c f g ttl ins].
  unfold ArrowSelection.with_index. cbn in *.
  rewrite Zminus_mod_idemp_l. replace (c + 1 - 1) with c by lia.
  rewrite Z.mod_small by lia. reflexivity.
Qed.

Lemma updateGamesDisplay_absorbs (m : ArrowSelection.t) (h : host) :
  updateGamesDisplay (set_selection m (updateGamesDisplay h))
  = updateGamesDisplay (set_selection m h).
Proof.
  unfold updateGamesDisplay, set_selection, set_history. cbn.
  f_equal. apply replaceLastOutput_absorb.
Qed.

End GamesMenu.

Section GamesMenuKeys.

Import ConsoleHelpers GameHelpers.

Lemma moveDown_moveUp_cancel (m : ArrowSelection.t) :
  ArrowSelection.in_range m ->
  ArrowSelection.moveDown (ArrowSelection.moveUp m) = m.
Proof.
  intros H. destruct (moveUp_in_range m H) as (_ & _ & Hu).
  rewrite (moveDown_in_range _ Hu), (moveUp_closed_form _ H).
  unfold ArrowSelection.in_range in H. destruct m as [its c f g ttl ins].
  unfold ArrowSelection.with_index. cbn in *.
  rewrite Zplus_mod_idemp_l. replace (c - 1 + 1) with c by lia.
  rewrite Z.mod_small by lia. reflexivity.
Qed.

Lemma set_selection_same (h : host) : set_selection (gamesSelection h) h = h.
Proof. destruct h; reflexivity. Qed.

Lemma replaceLastOutput_length (t : string) (prev : list HistoryItem) :
  length (replaceLastOutput t prev) = length prev.
Proof.
  destruct (list_nil_or_snoc prev) as [->|(pre & x & ->)]; [reflexivity|].
  rewrite replaceLastOutput_snoc. destruct (isOutput (type x));
    rewrite !length_app; reflexivity.
Qed.

Lemma globalKeyDown_outside (e : KeyboardHandlers.KeyEvent) (h : host) :
  isGamesMode h = false -> globalKeyDown e h = h.
Proof.
  intros H. unfold globalKeyDown, KeyboardHandlers.handleGlobalKeyDown.
  rewrite H.
  destruct (KeyboardHandlers.isGloballyBlocked e), (isPlayingGame h),
    (KeyboardHandlers.isArrowKey e); reflexivity.
Qed.

(** X24. In the games menu, with the cursor on an item, arrow down
    followed by arrow up - or arrow up followed by arrow down - ends in
    the state that a plain refresh of the display gives: the same cursor,
    the same history but for the refreshed last output. *)
Theorem X24_games_down_up (h : host) :
  ArrowSelection.in_range (gamesSelection h) ->
  handleGamesUp (handleGamesDown h) = updateGamesDisplay h
  /\ handleGamesDown (handleGamesUp h) = updateGamesDisplay h.
Proof.
  intros H. unfold handleGamesUp, handleGamesDown.
  assert (Hsel : forall m h', gamesSelection
                   (updateGamesDisplay (set_selection m h')) = m)
    by reflexivity.
  rewrite !Hsel, !updateGamesDisplay_absorbs.
  rewrite (moveUp_moveDown_cancel _ H), (moveDown_moveUp_cancel _ H).
  assert (Hss : forall m m', set_selection m (set_selection m' h)
                             = set_selection m h) by reflexivity.
  rewrite !Hss, set_selection_same. split; reflexivity.
Qed.

Lemma X24_games_down_up_witness :
  handleGamesUp (handleGamesDown gamesHost) = updateGamesDisplay gamesHost
  /\ handleGamesDown (handleGamesUp gamesHost) = updateGamesDisplay gamesHost.
Proof.
  apply (X24_games_down_up gamesHost).
  unfold ArrowSelection.in_range. vm_compute.
  split; [discriminate | reflexivity].
Defined.

(** X25. Only Enter and Ctrl+C leave the games menu: any other key event
    on the document leaves the mode flags and the selected game as they
    were, and changes neither the items of the menu nor the number of
    history entries. *)
Theorem X25_other_keys_stay_in_menu
    (e : KeyboardHandlers.KeyEvent) (h : host) :
  String.eqb (KeyboardHandlers.key e) "Enter" = false ->
  KeyboardHandlers.ctrlKey e && String.eqb (KeyboardHandlers.key e) "c"
    = false ->
  isGamesMode (globalKeyDown e h) = isGamesMode h
  /\ isPlayingGame (globalKeyDown e h) = isPlayingGame h
  /\ selectedGame (globalKeyDown e h) = selectedGame h
  /\ ArrowSelection.items (gamesSelection (globalKeyDown e h))
     = ArrowSelection.items (gamesSelection h)
  /\ length (history (globalKeyDown e h)) = length (history h).
Proof.
  intros He Hc. unfold globalKeyDown, KeyboardHandlers.handleGlobalKeyDown.
  rewrite He, Hc.
  destruct (KeyboardHandlers.isGloballyBlocked e), (isGamesMode h) eqn:Hg,
    (isPlayingGame h) eqn:Hp, (KeyboardHandlers.isArrowKey e),
    (String.eqb (KeyboardHandlers.key e) "ArrowUp"),
    (String.eqb (KeyboardHandlers.key e) "ArrowDown");
    cbn; rewrite ?replaceLastOutput_length, ?Hg, ?Hp; repeat split.
Qed.

Lemma X25_other_keys_stay_in_menu_witness :
  let e := KeyboardHandlers.mkKeyEvent "ArrowDown" false false in
  isGamesMode (globalKeyDown e gamesHost) = isGamesMode gamesHost
  /\ isPlayingGame (globalKeyDown e gamesHost) = isPlayingGame gamesHost
  /\ selectedGame (globalKeyDown e gamesHost) = selectedGame gamesHost
  /\ ArrowSelection.items (gamesSelection (globalKeyDown e gamesHost))
     = ArrowSelection.items (gamesSelection gamesHost)
  /\ length (history (globalKeyDown e gamesHost))
     = length (history gamesHost).
Proof.
  apply (X25_other_keys_stay_in_menu
           (KeyboardHandlers.mkKeyEvent "ArrowDown" false false) gamesHost);
    reflexivity.
Defined.

(** X26. At the plain command line - neither games mode nor a game
    playing, so that the console's listener is the only one on the
    document - no key event on the document changes the games state: the
    menu receives no key. *)
Theorem X26_no_menu_keys_outside_games_mode
    (e : KeyboardHandlers.KeyEvent) (h : host) :
  isGamesMode h = false ->
  isPlayingGame h = false ->
  globalKeyDown e h = h.
Proof. intros Hg _. apply globalKeyDown_outside, Hg. Qed.

Lemma X26_no_menu_keys_outside_games_mode_witness :
  globalKeyDown enterKey (exitGamesMenu gamesHost) = exitGamesMenu gamesHost.
Proof.
  apply (X26_no_menu_keys_outside_games_mode enterKey
           (exitGamesMenu gamesHost)); reflexivity.
Defined.

(** X27. In games mode, over the items that [createGameItems] builds,
    Enter with the cursor on the [k]-th game starts that game: the
    selected game becomes its id, games mode ends, playing begins, menu
    and history stay as they are - and the menu itself no longer reacts
    to a key that the console's listener handles. *)
Theorem X27_enter_starts_game
    (e e' : KeyboardHandlers.KeyEvent) (h : host)
    (games : list game) (k : nat) (g : game) :
  isGamesMode h = true ->
  ArrowSelection.items (gamesSelection h) = createGameItems games ->
  ArrowSelection.currentIndex (gamesSelection h) = Z.of_nat k ->
  nth_error games k = Some g ->
  KeyboardHandlers.key e = "Enter"%string ->
  globalKeyDown e h = startGame (game_id g) h
  /\ selectedGame (globalKeyDown e h) = game_id g
  /\ isGamesMode (globalKeyDown e h) = false
  /\ isPlayingGame (globalKeyDown e h) = true
  /\ gamesSelection (globalKeyDown e' (globalKeyDown e h)) = gamesSelection h.
Proof.
  intros Hg Hi Hc Hn He.
  assert (E : globalKeyDown e h = startGame (game_id g) h).
  { unfold globalKeyDown, KeyboardHandlers.handleGlobalKeyDown.
    unfold KeyboardHandlers.isGloballyBlocked, KeyboardHandlers.isArrowKey.
    rewrite He, Hg. cbn.
    rewrite !andb_false_r. cbn.
    unfold handleGamesSelect, ArrowSelection.select.
    rewrite Hi, Hc. unfold js_index.
    destruct (Z.ltb_spec (Z.of_nat k) 0); [lia|].
    rewrite Nat2Z.id. unfold createGameItems.
    rewrite mapi_from_nth_error, Hn. reflexivity. }
  rewrite E. repeat split.
  rewrite globalKeyDown_outside by reflexivity. reflexivity.
Qed.

Lemma X27_enter_starts_game_witness :
  let h := handleGamesDown gamesHost in
  globalKeyDown enterKey h = startGame "pong" h
  /\ selectedGame (globalKeyDown enterKey h) = "pong"%string
  /\ isGamesMode (globalKeyDown enterKey h) = false
  /\ isPlayingGame (globalKeyDown enterKey h) = true
  /\ gamesSelection (globalKeyDown enterKey (globalKeyDown enterKey h))
     = gamesSelection h.
Proof.
  apply (X27_enter_starts_game enterKey enterKey (handleGamesDown gamesHost)
           [snakeGame; pongGame] 1 pongGame); reflexivity.
Defined.

End GamesMenuKeys.
